(** * create_test_pngs.py: the test-frame generator

    A shallow embedding of [create_test_frames] from
    [src/create_test_pngs.py], and the properties of the frames it
    writes.  Python [float] is IEEE-754 binary64; it is modelled with
    the executable specification [SpecFloat] of the Standard Library
    (round to nearest, ties to even), so every channel value is
    computed here exactly as CPython computes it. *)

From Stdlib Require Import ZArith QArith Qround SpecFloat DecimalString.
From stdpp Require Import base tactics option list strings gmap.

Local Open Scope Z_scope.

(** * Definitions *)

(** ** Python floats *)

Module Float64.

Definition prec : Z := 53.
Definition emax : Z := 1024.

Definition float := spec_float.

(** [float(n)] for a Python [int]; exact whenever [|n| < 2^53]. *)
Definition of_int (n : Z) : float := binary_normalize prec emax n 0 false.

Definition mul : float → float → float := SFmul prec emax.
Definition div : float → float → float := SFdiv prec emax.
Definition sub : float → float → float := SFsub prec emax.

(** A decimal literal [m / 10^k] with [m] and [10^k] below [2^53]:
    the correctly rounded quotient of two exact floats. *)
Definition of_decimal (m : Z) (k : Z) : float :=
  div (of_int m) (of_int (10 ^ k)).

(** [a / b] on two Python [int]s (true division). *)
Definition int_truediv (a b : Z) : float := div (of_int a) (of_int b).

(** [int(f)]: truncation towards zero; raises on infinities and NaN. *)
Definition to_int (f : float) : option Z :=
  match f with
  | S754_zero _ => Some 0
  | S754_finite s m e =>
      let a := match e with
               | Zneg p => Z.shiftr (Zpos m) (Zpos p)
               | _ => Z.shiftl (Zpos m) e
               end in
      Some (if s then - a else a)
  | S754_infinity _ | S754_nan => None
  end.

End Float64.

Import Float64.

(** ** Constants of [create_test_frames] *)

Definition frames_dir : string := "simulation_videos/test_png_frames".
Definition width : Z := 405.
Definition height : Z := 720.
Definition n_frames : Z := 30.
Definition n_ants : Z := 10.

(** ** Channel values of the gradient, as the script computes them *)

(** [time_factor = i / 29.0] *)
Definition time_factor (i : Z) : float := div (of_int i) (of_decimal 290 1).

(** [255 * (x / width)], the part of the red channel that does not
    depend on the frame *)
Definition red_ramp (x : Z) : float := mul (of_int 255) (int_truediv x width).

(** [255 * (y / height)] *)
Definition green_ramp (y : Z) : float := mul (of_int 255) (int_truediv y height).

(** [1 - time_factor] *)
Definition fade (tf : float) : float := sub (of_int 1) tf.

(** [int(255 * (x / width) * (1 - time_factor))] *)
Definition red_of (tf : float) (x : Z) : option Z :=
  to_int (mul (red_ramp x) (fade tf)).

(** [int(255 * (y / height) * time_factor)] *)
Definition green_of (tf : float) (y : Z) : option Z :=
  to_int (mul (green_ramp y) tf).

(** [int(255 * time_factor)] *)
Definition blue_of (tf : float) : option Z :=
  to_int (mul (of_int 255) tf).

Definition red_value (i x : Z) : option Z := red_of (time_factor i) x.
Definition green_value (i y : Z) : option Z := green_of (time_factor i) y.
Definition blue_value (i : Z) : option Z := blue_of (time_factor i).

Definition alpha_value : Z := 255.

(** ** Marker positions *)

(** [int((width * 0.8) * ((i + ant * 3) % 30) / 30) + 50] *)
Definition ant_x (i ant : Z) : option Z :=
  v ← to_int (div (mul (mul (of_int width) (of_decimal 8 1))
                       (of_int ((i + ant * 3) `mod` 30)))
                  (of_int 30));
  Some (v + 50).

(** [int((height * 0.8) * ((i + ant * 2) % 30) / 30) + 50] *)
Definition ant_y (i ant : Z) : option Z :=
  v ← to_int (div (mul (mul (of_int height) (of_decimal 8 1))
                       (of_int ((i + ant * 2) `mod` 30)))
                  (of_int 30));
  Some (v + 50).

Definition yellow : list Z := [255; 255; 0; 255].

(** ** The formulas of the specification, over the rationals *)

Definition spec_red (i x : Z) : Z :=
  Qfloor (255 * (inject_Z x / 405) * (1 - inject_Z i / 29)).

Definition spec_green (i y : Z) : Z :=
  Qfloor (255 * (inject_Z y / 720) * (inject_Z i / 29)).

Definition spec_blue (i : Z) : Z :=
  Qfloor (255 * (inject_Z i / 29)).

Definition spec_ant_x (i ant : Z) : Z :=
  Qfloor (405 * (8 / 10) * inject_Z ((i + ant * 3) `mod` 30) / 30) + 50.

Definition spec_ant_y (i ant : Z) : Z :=
  Qfloor (720 * (8 / 10) * inject_Z ((i + ant * 2) `mod` 30) / 30) + 50.

(** The pixels where binary64 rounding leaves the product just below
    an integer that the exact formula reaches: [(i, x)] for red and
    [(i, y)] for green. *)
Definition red_rounded_down : list (Z * Z) :=
  [(2, 145); (2, 203); (2, 290); (14, 261);
   (20, 87); (20, 174); (20, 261); (20, 348)].

Definition green_rounded_down : list (Z * Z) :=
  [(24, 406); (24, 638)].

Definition pair_in (p : Z * Z) (l : list (Z * Z)) : bool :=
  existsb (λ q, (p.1 =? q.1) && (p.2 =? q.2)) l.

(** ** The pixel buffer

    [np.zeros((height, width, 4), dtype=np.uint8)]: rows of pixels of
    four channels, indexed [frame[y, x, c]]. *)

Abbreviation frame := (list (list (list Z))).

Definition np_zeros (h w c : nat) : frame :=
  replicate h (replicate w (replicate c 0)).

(** Storing a Python [int] into a [uint8] cell keeps the low eight
    bits (NumPy 1.x; NumPy 2 raises [OverflowError] outside [0, 255]
    instead).  The script only stores values in [0, 255], where the
    two agree. *)
Definition wrap_uint8 (v : Z) : Z := v `mod` 256.

(** A NumPy index into an axis of length [n]: a negative index counts
    from the end, anything outside [-n, n) raises [IndexError]. *)
Definition np_index (n : nat) (k : Z) : option nat :=
  if decide (0 ≤ k < Z.of_nat n) then Some (Z.to_nat k)
  else if decide (- Z.of_nat n ≤ k < 0) then Some (Z.to_nat (k + Z.of_nat n))
  else None.

(** Read-modify-write of the pixel [frame[y, x]]. *)
Definition update_pixel (fr : frame) (y x : Z)
    (f : list Z → option (list Z)) : option frame :=
  iy ← np_index (length fr) y;
  row ← fr !! iy;
  ix ← np_index (length row) x;
  old ← row !! ix;
  new ← f old;
  Some (<[iy := <[ix := new]> row]> fr).

(** [frame[y, x, c] = v] *)
Definition set_channel (fr : frame) (y x c v : Z) : option frame :=
  update_pixel fr y x (λ old,
    ic ← np_index (length old) c;
    Some (<[ic := wrap_uint8 v]> old)).

(** [frame[y, x] = p]: the list is broadcast over the channel axis and
    must have its length. *)
Definition set_pixel (fr : frame) (y x : Z) (p : list Z) : option frame :=
  update_pixel fr y x (λ old,
    if decide (length p = length old) then Some (wrap_uint8 <$> p) else None).

(** ** Loops *)

(** [for k in l: s = body(k, s)], stopping at the first exception. *)
Fixpoint for_each {S : Type} (l : list Z) (body : Z → S → option S) (s : S)
    : option S :=
  match l with
  | [] => Some s
  | k :: l' =>
      match body k s with
      | Some s' => for_each l' body s'
      | None => None
      end
  end.

(** [range(a, b)] *)
Definition py_range (a b : Z) : list Z := seqZ a (b - a).

(** The body of the two gradient loops at pixel [(y, x)]. *)
Definition shade_pixel (tf : float) (y x : Z) (fr : frame) : option frame :=
  r ← red_of tf x;
  fr ← set_channel fr y x 0 r;
  g ← green_of tf y;
  fr ← set_channel fr y x 1 g;
  b ← blue_of tf;
  fr ← set_channel fr y x 2 b;
  set_channel fr y x 3 alpha_value.

Definition shade (tf : float) (fr : frame) : option frame :=
  for_each (py_range 0 height) (λ y,
    for_each (py_range 0 width) (λ x, shade_pixel tf y x)) fr.

(** The guarded write of one marker cell. *)
Definition draw_cell (ax ay dy dx : Z) (fr : frame) : option frame :=
  if decide ((0 ≤ ax + dx < width) ∧ (0 ≤ ay + dy < height))
  then set_pixel fr (ay + dy) (ax + dx) yellow
  else Some fr.

Definition draw_ant (i ant : Z) (fr : frame) : option frame :=
  ax ← ant_x i ant;
  ay ← ant_y i ant;
  for_each (py_range (-2) 3) (λ dy,
    for_each (py_range (-2) 3) (λ dx, draw_cell ax ay dy dx)) fr.

(** One iteration of the frame loop, up to the saved buffer. *)
Definition create_frame (i : Z) : option frame :=
  fr ← shade (time_factor i)
         (np_zeros (Z.to_nat height) (Z.to_nat width) 4);
  for_each (py_range 0 n_ants) (draw_ant i) fr.

(** ** The outside world: directories, saved images, console

    The file system is taken to accept every call: the script handles
    no error of its own, and the properties below are about the files
    and lines it produces when the calls go through. *)

Record world := World {
  dirs : gset string;
  files : gmap string frame;
  stdout : list string
}.

(** [f"{i}"] *)
Definition format_d (i : Z) : string :=
  NilZero.string_of_int (Z.to_int i).

(** [f"{i:04d}"] *)
Definition format_04d (i : Z) : string :=
  let digits := format_d (Z.abs i) in
  let pad n := String.concat "" (replicate (n - String.length digits)%nat "0") in
  if decide (i < 0) then "-" +:+ pad 3%nat +:+ digits
  else pad 4%nat +:+ digits.

Definition frame_name (i : Z) : string := "frame_" +:+ format_04d i +:+ ".png".

(** [f"{frames_dir}/frame_{i:04d}.png"] *)
Definition frame_path (i : Z) : string := frames_dir +:+ "/" +:+ frame_name i.

(** [f"Created frame_{i:04d}.png"] *)
Definition created_line (i : Z) : string := "Created " +:+ frame_name i.

(** The summary line printed after the loop. *)
Definition final_line : string :=
  "✅ Created " +:+ format_d 30 +:+ " test PNG frames in " +:+ frames_dir.

(** [os.makedirs(frames_dir, exist_ok=True)] *)
Definition makedirs (w : world) : world :=
  World ({[ "simulation_videos"; frames_dir ]} ∪ dirs w) (files w) (stdout w).

(** [Image.fromarray(frame, 'RGBA').save(path)]: the file holds the
    buffer (PNG is lossless); a file of that name is replaced. *)
Definition save (path : string) (fr : frame) (w : world) : world :=
  World (dirs w) (<[path := fr]> (files w)) (stdout w).

Definition print (line : string) (w : world) : world :=
  World (dirs w) (files w) (stdout w ++ [line]).

(** One iteration of the frame loop. *)
Definition frame_step (i : Z) (w : world) : option world :=
  fr ← create_frame i;
  Some (print (created_line i) (save (frame_path i) fr w)).

Definition create_test_frames (w : world) : option (string * world) :=
  w ← for_each (py_range 0 n_frames) frame_step (makedirs w);
  Some (frames_dir, print final_line w).

(** The names the specification lists. *)
Definition expected_names : list string :=
  ["frame_0000.png"; "frame_0001.png"; "frame_0002.png"; "frame_0003.png";
   "frame_0004.png"; "frame_0005.png"; "frame_0006.png"; "frame_0007.png";
   "frame_0008.png"; "frame_0009.png"; "frame_0010.png"; "frame_0011.png";
   "frame_0012.png"; "frame_0013.png"; "frame_0014.png"; "frame_0015.png";
   "frame_0016.png"; "frame_0017.png"; "frame_0018.png"; "frame_0019.png";
   "frame_0020.png"; "frame_0021.png"; "frame_0022.png"; "frame_0023.png";
   "frame_0024.png"; "frame_0025.png"; "frame_0026.png"; "frame_0027.png";
   "frame_0028.png"; "frame_0029.png"].

(** The paths of the files one run writes, in writing order. *)
Definition frame_paths : list string := frame_path <$> py_range 0 n_frames.

(** ** Reading the buffer *)

(** The pixel at row [y], column [x], for non-negative coordinates. *)
Definition px (fr : frame) (y x : Z) : option (list Z) :=
  if decide (0 ≤ y ∧ 0 ≤ x)
  then row ← fr !! Z.to_nat y; row !! Z.to_nat x
  else None.

(** A buffer of [h] rows of [w] pixels of [c] channels. *)
Definition shape (h w c : nat) (fr : frame) : Prop :=
  length fr = h
  ∧ Forall (λ row, length row = w ∧ Forall (λ p, length p = c) row) fr.

(** Every loop of the script writes pixels whose value depends on the
    position only, so a loop is described by the set of cells it
    writes: afterwards a cell holds [val] if some iteration wrote it
    and its old contents otherwise. *)
Definition paints (h w c : nat) (val : Z → Z → option (list Z))
    (cells : Z → Z → bool) (f : frame → option frame) : Prop :=
  ∀ fr, shape h w c fr →
    ∃ fr', f fr = Some fr' ∧ shape h w c fr'
           ∧ ∀ y x, px fr' y x = if cells y x then val y x else px fr y x.

Abbreviation frame_shape := (shape (Z.to_nat height) (Z.to_nat width) 4).
Abbreviation frame_paints := (paints (Z.to_nat height) (Z.to_nat width) 4).

(** What the gradient pass leaves at [(y, x)] in frame [i]. *)
Definition gradient_px (i y x : Z) : option (list Z) :=
  r ← red_value i x;
  g ← green_value i y;
  b ← blue_value i;
  Some [r; g; b; alpha_value].

Definition in_frame (y x : Z) : bool :=
  bool_decide ((0 ≤ y < height) ∧ (0 ≤ x < width)).

(** ** The cells the marker pass writes *)

Definition cell_hit (ax ay dy dx y x : Z) : bool :=
  bool_decide (((0 ≤ ax + dx < width) ∧ (0 ≤ ay + dy < height))
               ∧ y = ay + dy ∧ x = ax + dx).

(** The cells of the square stamped around [(ax, ay)]. *)
Definition stamp (ax ay y x : Z) : bool :=
  existsb (λ dy, existsb (λ dx, cell_hit ax ay dy dx y x) (py_range (-2) 3))
    (py_range (-2) 3).

Definition ant_cells (i ant y x : Z) : bool :=
  match ant_x i ant, ant_y i ant with
  | Some ax, Some ay => stamp ax ay y x
  | _, _ => false
  end.

(** Whether some marker of frame [i] overwrites [(y, x)]. *)
Definition covered (i y x : Z) : bool :=
  existsb (λ ant, ant_cells i ant y x) (py_range 0 n_ants).

(** Every cell a marker loop of frame [i] writes, in writing order. *)
Definition marker_cells (i : Z) : list (Z * Z) :=
  ant ← py_range 0 n_ants;
  match ant_x i ant, ant_y i ant with
  | Some ax, Some ay =>
      dy ← py_range (-2) 3;
      dx ← py_range (-2) 3;
      if decide ((0 ≤ ax + dx < width) ∧ (0 ≤ ay + dy < height))
      then [(ay + dy, ax + dx)] else []
  | _, _ => []
  end.

(** The reading of C7: some marker cell of some frame falls outside the
    frame, so that the bounds check skips it. *)
Definition some_marker_clipped : Prop :=
  ∃ i ant dx dy ax ay,
    0 ≤ i < n_frames ∧ 0 ≤ ant < n_ants ∧ -2 ≤ dx ≤ 2 ∧ -2 ≤ dy ≤ 2
    ∧ ant_x i ant = Some ax ∧ ant_y i ant = Some ay
    ∧ ¬ ((0 ≤ ax + dx < width) ∧ (0 ≤ ay + dy < height)).

(** ** Checked tables

    Every channel value and every marker position the script can
    compute, evaluated once and compared with the rational formula.
    The ramps are computed once per column and the fade once per
    frame, as the products only need one multiplication each. *)

Definition off_by (hit : bool) : Z := if hit then 1 else 0.

Definition red_ok (i x : Z) (o : option Z) : bool :=
  match o with
  | Some v =>
      (0 <=? v) && (v <=? 254)
      && (v =? spec_red i x - off_by (pair_in (i, x) red_rounded_down))
  | None => false
  end.

Definition green_ok (i y : Z) (o : option Z) : bool :=
  match o with
  | Some v =>
      (0 <=? v) && (v <=? 254)
      && (v =? spec_green i y - off_by (pair_in (i, y) green_rounded_down))
  | None => false
  end.

Definition blue_ok (i : Z) : bool :=
  match blue_value i with
  | Some v => (0 <=? v) && (v <=? 255) && (v =? spec_blue i)
  | None => false
  end.

Definition ant_ok (i ant : Z) : bool :=
  match ant_x i ant, ant_y i ant with
  | Some ax, Some ay =>
      (ax =? spec_ant_x i ant) && (ay =? spec_ant_y i ant)
      && (50 <=? ax) && (ax <=? 363) && (50 <=? ay) && (ay <=? 606)
  | _, _ => false
  end.

(** [ok i x (col x) (row i)] for every [i < n] and [x < m], with each
    column and each row value computed once. *)
Definition check_grid {A B : Type} (col : Z → A) (row : Z → B)
    (ok : Z → Z → A → B → bool) (n m : Z) : bool :=
  let cols := (λ x, (x, col x)) <$> seqZ 0 m in
  forallb (λ i, let r := row i in forallb (λ xc, ok i xc.1 xc.2 r) cols)
    (seqZ 0 n).

Definition red_cell (i x : Z) (ramp f : float) : bool :=
  red_ok i x (to_int (mul ramp f)).

Definition green_cell (i y : Z) (ramp tf : float) : bool :=
  green_ok i y (to_int (mul ramp tf)).

Definition ant_cell (i ant : Z) (_ _ : unit) : bool := ant_ok i ant.

Definition blue_cell (i _ : Z) (_ _ : unit) : bool := blue_ok i.

Ltac in_range := unfold n_frames, n_ants, width, height; lia.

Ltac each_pair H :=
  repeat (apply elem_of_cons in H as [[= -> ->]|H]; [vm_compute; done|]);
  inversion H.

(** * Lemmas *)

(** ** The tables *)

Lemma check_grid_spec {A B : Type} (col : Z → A) (row : Z → B) ok n m i x :
  check_grid col row ok n m = true → 0 ≤ i < n → 0 ≤ x < m →
  ok i x (col x) (row i) = true.
Proof.
  unfold check_grid. cbv zeta. rewrite forallb_forall. intros H Hi Hx.
  assert (In i (seqZ 0 n)) as Hin
    by (apply list_elem_of_In, elem_of_seqZ; lia).
  specialize (H i Hin). rewrite forallb_forall in H.
  apply (H (x, col x)).
  apply list_elem_of_In, list_elem_of_fmap. exists x. split; [done|].
  apply elem_of_seqZ. lia.
Qed.

Lemma red_table :
  check_grid red_ramp (λ i, fade (time_factor i)) red_cell n_frames width
  = true.
Proof. vm_compute. reflexivity. Qed.

Lemma green_table :
  check_grid green_ramp time_factor green_cell n_frames height = true.
Proof. vm_compute. reflexivity. Qed.

Lemma blue_table :
  check_grid (λ _, ()) (λ _, ()) blue_cell n_frames 1 = true.
Proof. vm_compute. reflexivity. Qed.

Lemma ant_table :
  check_grid (λ _, ()) (λ _, ()) ant_cell n_frames n_ants = true.
Proof. vm_compute. reflexivity. Qed.

Lemma red_value_eq (i x : Z) :
  red_value i x = to_int (mul (red_ramp x) (fade (time_factor i))).
Proof. reflexivity. Qed.

Lemma green_value_eq (i y : Z) :
  green_value i y = to_int (mul (green_ramp y) (time_factor i)).
Proof. reflexivity. Qed.

Lemma red_facts (i x : Z) :
  0 ≤ i < n_frames → 0 ≤ x < width →
  ∃ v, red_value i x = Some v ∧ 0 ≤ v ≤ 254
       ∧ v = spec_red i x - off_by (pair_in (i, x) red_rounded_down).
Proof.
  intros Hi Hx.
  pose proof (check_grid_spec _ _ _ _ _ i x red_table Hi Hx) as H.
  cbv beta in H. unfold red_cell, red_ok in H.
  rewrite red_value_eq.
  destruct (to_int _) as [v|]; [|done].
  exists v. repeat (apply andb_prop in H as [H ?]). split; [done|]. lia.
Qed.

Lemma green_facts (i y : Z) :
  0 ≤ i < n_frames → 0 ≤ y < height →
  ∃ v, green_value i y = Some v ∧ 0 ≤ v ≤ 254
       ∧ v = spec_green i y - off_by (pair_in (i, y) green_rounded_down).
Proof.
  intros Hi Hy.
  pose proof (check_grid_spec _ _ _ _ _ i y green_table Hi Hy) as H.
  unfold green_cell, green_ok in H.
  rewrite green_value_eq.
  destruct (to_int _) as [v|]; [|done].
  exists v. repeat (apply andb_prop in H as [H ?]). split; [done|]. lia.
Qed.

Lemma blue_facts (i : Z) :
  0 ≤ i < n_frames →
  ∃ v, blue_value i = Some v ∧ 0 ≤ v ≤ 255 ∧ v = spec_blue i.
Proof.
  intros Hi.
  pose proof (check_grid_spec _ _ _ _ _ i 0 blue_table Hi ltac:(lia)) as H.
  unfold blue_cell, blue_ok in H.
  destruct (blue_value i) as [v|]; [|done].
  exists v. repeat (apply andb_prop in H as [H ?]). split; [done|]. lia.
Qed.

Lemma ant_facts (i ant : Z) :
  0 ≤ i < n_frames → 0 ≤ ant < n_ants →
  ∃ ax ay, ant_x i ant = Some ax ∧ ant_y i ant = Some ay
           ∧ ax = spec_ant_x i ant ∧ ay = spec_ant_y i ant
           ∧ 50 ≤ ax ≤ 363 ∧ 50 ≤ ay ≤ 606.
Proof.
  intros Hi Ha.
  pose proof (check_grid_spec _ _ _ _ _ i ant ant_table Hi Ha) as H.
  unfold ant_cell, ant_ok in H.
  destruct (ant_x i ant) as [ax|]; [|done].
  destruct (ant_y i ant) as [ay|]; [|done].
  exists ax, ay. repeat (apply andb_prop in H as [H ?]).
  repeat split; try done; lia.
Qed.

(** ** The pixel buffer *)

Lemma np_index_in (n : nat) (k : Z) :
  0 ≤ k < Z.of_nat n → np_index n k = Some (Z.to_nat k).
Proof. intros H. unfold np_index. by rewrite decide_True. Qed.

Lemma np_zeros_shape (h w c : nat) : shape h w c (np_zeros h w c).
Proof.
  unfold shape, np_zeros. split; [by rewrite length_replicate|].
  apply Forall_replicate. split; [by rewrite length_replicate|].
  apply Forall_replicate. by rewrite length_replicate.
Qed.

Section Buffer.
Context (h w c : nat).

Lemma px_inv (fr : frame) (y x : Z) (p : list Z) :
  px fr y x = Some p →
  0 ≤ y ∧ 0 ≤ x
  ∧ ∃ row, fr !! Z.to_nat y = Some row ∧ row !! Z.to_nat x = Some p.
Proof.
  unfold px. case_decide as Hyx; [|done].
  destruct (fr !! Z.to_nat y) as [row|] eqn:Hrow; [|done].
  simpl. intros Hp. repeat split; try lia. by exists row.
Qed.

Lemma px_in_shape (fr : frame) (y x : Z) :
  shape h w c fr → 0 ≤ y < Z.of_nat h → 0 ≤ x < Z.of_nat w →
  ∃ p, px fr y x = Some p ∧ length p = c.
Proof.
  intros [Hlen Hrows] Hy Hx.
  destruct (lookup_lt_is_Some_2 fr (Z.to_nat y)) as [row Hrow]; [lia|].
  pose proof (Forall_lookup_1 _ _ _ _ Hrows Hrow) as [Hw Hps].
  destruct (lookup_lt_is_Some_2 row (Z.to_nat x)) as [p Hp]; [lia|].
  exists p. split.
  - unfold px. rewrite decide_True by lia. by rewrite Hrow.
  - by apply (Forall_lookup_1 _ _ _ _ Hps Hp).
Qed.

Lemma px_shape_length (fr : frame) (y x : Z) (p : list Z) :
  shape h w c fr → px fr y x = Some p → length p = c.
Proof.
  intros [_ Hrows] (_ & _ & row & Hrow & Hp)%px_inv.
  pose proof (Forall_lookup_1 _ _ _ _ Hrows Hrow) as [_ Hps].
  by apply (Forall_lookup_1 _ _ _ _ Hps Hp).
Qed.

(** A successful read-modify-write changes exactly the pixel
    addressed, and keeps the dimensions when the new pixel has the
    channel count of the buffer. *)
Lemma update_pixel_spec (fr : frame) (y x : Z) f (old new : list Z) :
  shape h w c fr → px fr y x = Some old → f old = Some new →
  length new = c →
  ∃ fr', update_pixel fr y x f = Some fr' ∧ shape h w c fr'
         ∧ ∀ y' x', px fr' y' x'
                    = if decide (y' = y ∧ x' = x) then Some new
                      else px fr y' x'.
Proof.
  intros [Hlen Hrows] Hpx Hf Hnew.
  destruct (px_inv _ _ _ _ Hpx) as (Hy & Hx & row & Hrow & Hold).
  pose proof (lookup_lt_Some _ _ _ Hrow) as Hylt.
  pose proof (lookup_lt_Some _ _ _ Hold) as Hxlt.
  pose proof (Forall_lookup_1 _ _ _ _ Hrows Hrow) as [Hw Hps].
  exists (<[Z.to_nat y := <[Z.to_nat x := new]> row]> fr).
  split; [|split].
  - unfold update_pixel.
    rewrite np_index_in by lia. simpl. rewrite Hrow. simpl.
    rewrite np_index_in by lia. simpl. rewrite Hold. simpl.
    by rewrite Hf.
  - split; [by rewrite length_insert|].
    apply Forall_insert; [done|].
    split; [by rewrite length_insert|].
    by apply Forall_insert.
  - intros y' x'. unfold px.
    destruct (decide (0 ≤ y' ∧ 0 ≤ x')) as [Hnn|Hneg].
    + destruct (decide (y' = y)) as [->|Hny].
      * rewrite list_lookup_insert_eq by done. simpl.
        destruct (decide (x' = x)) as [->|Hnx].
        -- rewrite decide_True by done.
           by rewrite list_lookup_insert_eq.
        -- rewrite decide_False by tauto.
           rewrite list_lookup_insert_ne by lia.
           by rewrite Hrow.
      * rewrite decide_False by tauto.
        by rewrite list_lookup_insert_ne by lia.
    + rewrite decide_False; [done|]. intros [-> ->]. lia.
Qed.

End Buffer.

(** ** Loops that paint *)

Section Painting.
Context (h w c : nat).

Lemma paints_skip val : paints h w c val (λ _ _, false) Some.
Proof. intros fr Hfr. by exists fr. Qed.

Lemma paints_ext val cells cells' f :
  (∀ y x, cells y x = cells' y x) → paints h w c val cells f → paints h w c val cells' f.
Proof.
  intros Heq Hf fr Hfr. destruct (Hf fr Hfr) as (fr' & ? & ? & Hpx).
  exists fr'. split; [done|split; [done|]]. intros y x. by rewrite <- Heq.
Qed.

Lemma paints_for_each val (cells : Z → Z → Z → bool) body (l : list Z) :
  (∀ k, k ∈ l → paints h w c val (cells k) (body k)) →
  paints h w c val (λ y x, existsb (λ k, cells k y x) l) (for_each l body).
Proof.
  induction l as [|k l IH]; intros Hbody fr Hfr.
  - by exists fr.
  - destruct (Hbody k (list_elem_of_here _ _) fr Hfr)
      as (fr1 & Hrun1 & Hfr1 & Hpx1).
    destruct (IH (λ k' Hk', Hbody k' (list_elem_of_further _ _ _ Hk')) fr1 Hfr1)
      as (fr2 & Hrun2 & Hfr2 & Hpx2).
    exists fr2. split; [|split; [done|]].
    + simpl. by rewrite Hrun1.
    + intros y x. rewrite Hpx2, Hpx1. simpl.
      destruct (cells k y x), (existsb _ l); done.
Qed.

(** One pixel written through [update_pixel]. *)
Lemma paints_update val (y x : Z) f :
  0 ≤ y < Z.of_nat h → 0 ≤ x < Z.of_nat w →
  (∀ old, length old = c → ∃ new, f old = Some new ∧ val y x = Some new
                                   ∧ length new = c) →
  paints h w c val (λ y' x', bool_decide (y' = y ∧ x' = x))
    (λ fr, update_pixel fr y x f).
Proof.
  intros Hy Hx Hf fr Hfr.
  destruct (px_in_shape h w c fr y x Hfr Hy Hx) as (old & Hold & Hlen).
  destruct (Hf old Hlen) as (new & Hnew & Hval & Hlen').
  destruct (update_pixel_spec h w c fr y x f old new Hfr Hold Hnew Hlen')
    as (fr' & Hrun & Hfr' & Hpx).
  exists fr'. split; [done|split; [done|]].
  intros y' x'. rewrite Hpx. case_bool_decide as Hd.
  - rewrite decide_True by done. by destruct Hd as [-> ->].
  - by rewrite decide_False.
Qed.

End Painting.

Lemma px_lookup (fr : frame) (row : list (list Z)) (y x : nat) :
  fr !! y = Some row → px fr (Z.of_nat y) (Z.of_nat x) = row !! x.
Proof.
  intros Hrow. unfold px. rewrite decide_True by lia.
  rewrite !Nat2Z.id, Hrow. reflexivity.
Qed.

Lemma frame_ext (h w c : nat) (fr fr' : frame) :
  shape h w c fr → shape h w c fr' →
  (∀ y x, 0 ≤ y < Z.of_nat h → 0 ≤ x < Z.of_nat w →
     px fr y x = px fr' y x) →
  fr = fr'.
Proof.
  intros [Hlen Hrows] [Hlen' Hrows'] Hpx. apply list_eq. intros y.
  destruct (decide (y < h)%nat) as [Hy|Hy]; last first.
  { rewrite !lookup_ge_None_2 by lia. reflexivity. }
  destruct (lookup_lt_is_Some_2 fr y) as [row Hrow]; [lia|].
  destruct (lookup_lt_is_Some_2 fr' y) as [row' Hrow']; [lia|].
  rewrite Hrow, Hrow'. f_equal.
  pose proof (Forall_lookup_1 _ _ _ _ Hrows Hrow) as [Hw _].
  pose proof (Forall_lookup_1 _ _ _ _ Hrows' Hrow') as [Hw' _].
  apply list_eq. intros x.
  destruct (decide (x < w)%nat) as [Hx|Hx]; last first.
  { rewrite !lookup_ge_None_2 by lia. reflexivity. }
  rewrite <- (px_lookup fr row y x Hrow), <- (px_lookup fr' row' y x Hrow').
  apply Hpx; lia.
Qed.

(** Two loops that paint the same cells with the same values give the
    same buffer, from any two buffers that agree on the other cells. *)
Lemma paints_agree (h w c : nat) val cells cells' f f' (fr fr' : frame) :
  paints h w c val cells f → paints h w c val cells' f' →
  shape h w c fr → shape h w c fr' →
  (∀ y x, 0 ≤ y < Z.of_nat h → 0 ≤ x < Z.of_nat w →
     cells y x = cells' y x
     ∧ (cells y x = false → px fr y x = px fr' y x)) →
  ∃ out, f fr = Some out ∧ f' fr' = Some out ∧ shape h w c out.
Proof.
  intros Hf Hf' Hfr Hfr' Hsame.
  destruct (Hf fr Hfr) as (out & Hrun & Hout & Hpx).
  destruct (Hf' fr' Hfr') as (out' & Hrun' & Hout' & Hpx').
  exists out. split; [exact Hrun|]. split; [|exact Hout].
  rewrite Hrun'. f_equal. symmetry.
  apply (frame_ext h w c); [exact Hout|exact Hout'|].
  intros y x Hy Hx. rewrite Hpx, Hpx'.
  destruct (Hsame y x Hy Hx) as [<- Hold].
  destruct (cells y x); [reflexivity|]. by apply Hold.
Qed.

(** ** The gradient pass *)

Lemma wrap_uint8_small (v : Z) : 0 ≤ v ≤ 255 → wrap_uint8 v = v.
Proof. intros Hv. unfold wrap_uint8. apply Z.mod_small. lia. Qed.

Lemma set_channel_spec (h w c : nat) (fr : frame) (y x ch v : Z) old :
  shape h w c fr → px fr y x = Some old → 0 ≤ ch < Z.of_nat c →
  ∃ fr', set_channel fr y x ch v = Some fr' ∧ shape h w c fr'
         ∧ ∀ y' x', px fr' y' x'
                    = if decide (y' = y ∧ x' = x)
                      then Some (<[Z.to_nat ch := wrap_uint8 v]> old)
                      else px fr y' x'.
Proof.
  intros Hfr Hold Hch.
  pose proof (px_shape_length h w c fr y x old Hfr Hold) as Hlen.
  apply (update_pixel_spec h w c fr y x _ old); try done.
  - rewrite np_index_in by lia. done.
  - by rewrite length_insert.
Qed.

Lemma gradient_px_Some (i y x : Z) :
  0 ≤ i < n_frames → 0 ≤ y < height → 0 ≤ x < width →
  ∃ r g b, red_value i x = Some r ∧ green_value i y = Some g
           ∧ blue_value i = Some b
           ∧ gradient_px i y x = Some [r; g; b; alpha_value]
           ∧ 0 ≤ r ≤ 254 ∧ 0 ≤ g ≤ 254 ∧ 0 ≤ b ≤ 255.
Proof.
  intros Hi Hy Hx.
  destruct (red_facts i x Hi Hx) as (r & Hr & Hr' & _).
  destruct (green_facts i y Hi Hy) as (g & Hg & Hg' & _).
  destruct (blue_facts i Hi) as (b & Hb & Hb' & _).
  exists r, g, b. unfold gradient_px. rewrite Hr, Hg, Hb. done.
Qed.

Lemma shade_pixel_paints (i y x : Z) :
  0 ≤ i < n_frames → 0 ≤ y < height → 0 ≤ x < width →
  frame_paints (gradient_px i) (λ y' x', bool_decide (y' = y ∧ x' = x))
    (shade_pixel (time_factor i) y x).
Proof.
  intros Hi Hy Hx fr Hfr.
  destruct (gradient_px_Some i y x Hi Hy Hx)
    as (r & g & b & Hr & Hg & Hb & Hval & Hr' & Hg' & Hb').
  destruct (px_in_shape _ _ _ fr y x Hfr) as (p0 & Hp0 & Hlen0);
    [unfold height in *; lia | unfold width in *; lia |].
  destruct (set_channel_spec _ _ _ fr y x 0 r p0 Hfr Hp0)
    as (fr1 & Hrun1 & Hfr1 & Hpx1); [lia|].
  assert (px fr1 y x = Some (<[Z.to_nat 0 := wrap_uint8 r]> p0)) as Hp1
    by (rewrite Hpx1; by rewrite decide_True).
  destruct (set_channel_spec _ _ _ fr1 y x 1 g _ Hfr1 Hp1)
    as (fr2 & Hrun2 & Hfr2 & Hpx2); [lia|].
  assert (px fr2 y x = Some (<[Z.to_nat 1 := wrap_uint8 g]>
           (<[Z.to_nat 0 := wrap_uint8 r]> p0))) as Hp2
    by (rewrite Hpx2; by rewrite decide_True).
  destruct (set_channel_spec _ _ _ fr2 y x 2 b _ Hfr2 Hp2)
    as (fr3 & Hrun3 & Hfr3 & Hpx3); [lia|].
  assert (px fr3 y x = Some (<[Z.to_nat 2 := wrap_uint8 b]>
           (<[Z.to_nat 1 := wrap_uint8 g]>
             (<[Z.to_nat 0 := wrap_uint8 r]> p0)))) as Hp3
    by (rewrite Hpx3; by rewrite decide_True).
  destruct (set_channel_spec _ _ _ fr3 y x 3 alpha_value _ Hfr3 Hp3)
    as (fr4 & Hrun4 & Hfr4 & Hpx4); [lia|].
  exists fr4. split; [|split; [done|]].
  - unfold shade_pixel.
    change (red_of (time_factor i) x) with (red_value i x).
    change (green_of (time_factor i) y) with (green_value i y).
    change (blue_of (time_factor i)) with (blue_value i).
    rewrite Hr. simpl. rewrite Hrun1. simpl.
    rewrite Hg. simpl. rewrite Hrun2. simpl.
    rewrite Hb. simpl. rewrite Hrun3. simpl. exact Hrun4.
  - intros y' x'. rewrite Hpx4. case_bool_decide as Hd.
    + rewrite decide_True by done. destruct Hd as [-> ->]. rewrite Hval.
      destruct p0 as [|c0 [|c1 [|c2 [|c3 [|]]]]]; try done.
      simpl. unfold alpha_value.
      rewrite !wrap_uint8_small by lia. done.
    + rewrite decide_False by done.
      rewrite Hpx3, decide_False by done.
      rewrite Hpx2, decide_False by done.
      rewrite Hpx1, decide_False by done. done.
Qed.

Lemma elem_of_py_range (a b k : Z) : k ∈ py_range a b ↔ a ≤ k < b.
Proof. unfold py_range. rewrite elem_of_seqZ. lia. Qed.

Lemma existsb_py_range (f : Z → bool) (a b : Z) :
  existsb f (py_range a b) = true ↔ ∃ k, a ≤ k < b ∧ f k = true.
Proof.
  rewrite existsb_exists. split; intros (k & Hk & Hf); exists k.
  - by apply list_elem_of_In, elem_of_py_range in Hk.
  - split; [|done]. by apply list_elem_of_In, elem_of_py_range.
Qed.

Lemma bool_eq_iff (a b : bool) : (a = true ↔ b = true) → a = b.
Proof. destruct a, b; intuition congruence. Qed.

Lemma existsb_Permutation {A : Type} (f : A → bool) (l l' : list A) :
  l ≡ₚ l' → existsb f l = existsb f l'.
Proof.
  intros Hp. apply bool_eq_iff. rewrite !existsb_exists.
  split; intros (a & Ha & Hfa); exists a; (split; [|exact Hfa]).
  - apply list_elem_of_In. rewrite <- Hp. by apply list_elem_of_In.
  - apply list_elem_of_In. rewrite Hp. by apply list_elem_of_In.
Qed.

Lemma shade_paints (i : Z) :
  0 ≤ i < n_frames →
  frame_paints (gradient_px i) in_frame (shade (time_factor i)).
Proof.
  intros Hi. unfold shade.
  eapply paints_ext; last first.
  - apply paints_for_each with
      (cells := λ y y' x', existsb (λ x, bool_decide (y' = y ∧ x' = x))
                             (py_range 0 width)).
    intros y Hy%elem_of_py_range.
    apply paints_for_each with
      (cells := λ x y' x', bool_decide (y' = y ∧ x' = x)).
    intros x Hx%elem_of_py_range.
    by apply shade_pixel_paints.
  - intros y' x'. apply bool_eq_iff. unfold in_frame.
    rewrite existsb_py_range, bool_decide_eq_true. split.
    + intros (y & Hy & (x & Hx & [-> ->]%bool_decide_eq_true)%existsb_py_range).
      done.
    + intros [Hy Hx]. exists y'. split; [done|].
      apply existsb_py_range. exists x'. split; [done|].
      by apply bool_decide_eq_true.
Qed.

(** ** The marker pass *)

Lemma yellow_stored : wrap_uint8 <$> yellow = yellow.
Proof. reflexivity. Qed.

Lemma draw_cell_paints (ax ay dy dx : Z) :
  frame_paints (λ _ _, Some yellow) (cell_hit ax ay dy dx)
    (draw_cell ax ay dy dx).
Proof.
  unfold draw_cell. case_decide as Hin.
  - eapply paints_ext; last first.
    + apply paints_update; [unfold height in *; lia|unfold width in *; lia|].
      intros old Hold. exists yellow. rewrite decide_True by by rewrite Hold.
      by rewrite yellow_stored.
    + intros y x. apply bool_eq_iff. unfold cell_hit.
      rewrite !bool_decide_eq_true. tauto.
  - eapply paints_ext; [|apply paints_skip].
    intros y x. unfold cell_hit. symmetry. apply bool_decide_eq_false. tauto.
Qed.

Lemma draw_ant_paints (i ant : Z) :
  0 ≤ i < n_frames → 0 ≤ ant < n_ants →
  frame_paints (λ _ _, Some yellow) (ant_cells i ant) (draw_ant i ant).
Proof.
  intros Hi Ha.
  destruct (ant_facts i ant Hi Ha) as (ax & ay & Hax & Hay & _).
  intros fr Hfr. unfold draw_ant, ant_cells. rewrite Hax, Hay.
  cbn [mbind option_bind]. unfold stamp.
  apply (paints_for_each _ _ _ (λ _ _, Some yellow)
           (λ dy y x, existsb (λ dx, cell_hit ax ay dy dx y x)
                        (py_range (-2) 3))); [|done].
  intros dy _.
  apply (paints_for_each _ _ _ (λ _ _, Some yellow)
           (λ dx y x, cell_hit ax ay dy dx y x)).
  intros dx _. apply draw_cell_paints.
Qed.

Lemma ants_paint (i : Z) (l : list Z) :
  0 ≤ i < n_frames → (∀ ant, ant ∈ l → 0 ≤ ant < n_ants) →
  frame_paints (λ _ _, Some yellow)
    (λ y x, existsb (λ ant, ant_cells i ant y x) l)
    (for_each l (draw_ant i)).
Proof.
  intros Hi Hl.
  apply (paints_for_each _ _ _ (λ _ _, Some yellow) (ant_cells i)).
  intros ant Hant. apply draw_ant_paints; [exact Hi|]. by apply Hl.
Qed.

(** The saved buffer of frame [i]: markers over the gradient. *)
Lemma create_frame_spec (i : Z) :
  0 ≤ i < n_frames →
  ∃ fr, create_frame i = Some fr ∧ frame_shape fr
        ∧ ∀ y x, 0 ≤ y < height → 0 ≤ x < width →
            px fr y x = if covered i y x then Some yellow
                        else gradient_px i y x.
Proof.
  intros Hi.
  destruct (shade_paints i Hi _ (np_zeros_shape _ _ _))
    as (fr1 & Hrun1 & Hfr1 & Hpx1).
  destruct (paints_for_each _ _ _ (λ _ _, Some yellow) (ant_cells i)
              (draw_ant i) (py_range 0 n_ants)
              (λ ant Hant, draw_ant_paints i ant Hi
                             (proj1 (elem_of_py_range _ _ _) Hant))
              fr1 Hfr1)
    as (fr2 & Hrun2 & Hfr2 & Hpx2).
  exists fr2. split; [|split; [done|]].
  - unfold create_frame. rewrite Hrun1. exact Hrun2.
  - intros y x Hy Hx. rewrite Hpx2. fold (covered i y x).
    destruct (covered i y x); [done|].
    rewrite Hpx1. unfold in_frame.
    rewrite bool_decide_eq_true_2 by exact (conj Hy Hx). reflexivity.
Qed.

Lemma stamp_spec (ax ay y x : Z) :
  stamp ax ay y x = true ↔
  ∃ dy dx, -2 ≤ dy < 3 ∧ -2 ≤ dx < 3
           ∧ ((0 ≤ ax + dx < width) ∧ (0 ≤ ay + dy < height))
           ∧ y = ay + dy ∧ x = ax + dx.
Proof.
  unfold stamp. rewrite existsb_py_range. split.
  - intros (dy & Hdy & (dx & Hdx & Hhit)%existsb_py_range).
    apply bool_decide_eq_true in Hhit. by exists dy, dx.
  - intros (dy & dx & Hdy & Hdx & Hhit). exists dy. split; [done|].
    apply existsb_py_range. exists dx. split; [done|].
    by apply bool_decide_eq_true.
Qed.

Lemma covered_spec (i y x : Z) :
  covered i y x = true ↔
  ∃ ant ax ay, 0 ≤ ant < n_ants ∧ ant_x i ant = Some ax
               ∧ ant_y i ant = Some ay ∧ stamp ax ay y x = true.
Proof.
  unfold covered. rewrite existsb_py_range. unfold ant_cells. split.
  - intros (ant & Hant & Hhit).
    destruct (ant_x i ant) as [ax|] eqn:Hax; [|done].
    destruct (ant_y i ant) as [ay|] eqn:Hay; [|done].
    exists ant, ax, ay.
    split; [exact Hant|]. split; [exact Hax|]. split; [exact Hay|].
    exact Hhit.
  - intros (ant & ax & ay & Hant & Hax & Hay & Hhit).
    exists ant. split; [exact Hant|]. rewrite Hax, Hay. exact Hhit.
Qed.

(** Markers stay well inside the frame. *)
Lemma covered_bounds (i y x : Z) :
  0 ≤ i < n_frames → covered i y x = true → 48 ≤ y ≤ 608 ∧ 48 ≤ x ≤ 365.
Proof.
  intros Hi (ant & ax & ay & Hant & Hax & Hay & Hhit)%covered_spec.
  apply stamp_spec in Hhit as (dy & dx & Hdy & Hdx & _ & -> & ->).
  destruct (ant_facts i ant Hi Hant)
    as (ax' & ay' & Hax' & Hay' & _ & _ & Hxr & Hyr).
  rewrite Hax in Hax'. rewrite Hay in Hay'.
  injection Hax' as ->. injection Hay' as ->. lia.
Qed.

Lemma marker_in_bounds (i ant dx dy : Z) :
  0 ≤ i < n_frames → 0 ≤ ant < n_ants → -2 ≤ dx ≤ 2 → -2 ≤ dy ≤ 2 →
  ∃ ax ay, ant_x i ant = Some ax ∧ ant_y i ant = Some ay
           ∧ ax = spec_ant_x i ant ∧ ay = spec_ant_y i ant
           ∧ (0 ≤ ax + dx < width) ∧ (0 ≤ ay + dy < height).
Proof.
  intros Hi Hant Hdx Hdy.
  destruct (ant_facts i ant Hi Hant)
    as (ax & ay & Hax & Hay & Hsx & Hsy & Hxr & Hyr).
  exists ax, ay. unfold width, height.
  split; [exact Hax|]. split; [exact Hay|].
  split; [exact Hsx|]. split; [exact Hsy|]. lia.
Qed.

Lemma marker_covered (i ant dx dy ax ay : Z) :
  0 ≤ i < n_frames → 0 ≤ ant < n_ants → -2 ≤ dx ≤ 2 → -2 ≤ dy ≤ 2 →
  ant_x i ant = Some ax → ant_y i ant = Some ay →
  (0 ≤ ax + dx < width) → (0 ≤ ay + dy < height) →
  covered i (ay + dy) (ax + dx) = true.
Proof.
  intros Hi Hant Hdx Hdy Hax Hay Hx Hy. apply covered_spec.
  exists ant, ax, ay.
  split; [exact Hant|]. split; [exact Hax|]. split; [exact Hay|].
  apply stamp_spec. exists dy, dx.
  split; [lia|]. split; [lia|]. split; [exact (conj Hx Hy)|].
  split; reflexivity.
Qed.

Lemma length_bind_le {A B : Type} (f : A → list B) (l : list A) (n : nat) :
  (∀ a, length (f a) ≤ n)%nat → (length (l ≫= f) ≤ n * length l)%nat.
Proof.
  intros Hf. induction l as [|a l IH]; [simpl; lia|].
  change ((a :: l) ≫= f) with (f a ++ (l ≫= f)).
  rewrite length_app. specialize (Hf a). simpl. lia.
Qed.

Lemma length_bind_const {A B : Type} (f : A → list B) (l : list A) (n : nat) :
  (∀ a, a ∈ l → length (f a) = n) → length (l ≫= f) = (n * length l)%nat.
Proof.
  induction l as [|a l IH]; intros Hf; [simpl; lia|].
  change ((a :: l) ≫= f) with (f a ++ (l ≫= f)).
  rewrite length_app, (Hf a (list_elem_of_here _ _)), IH.
  - simpl. lia.
  - intros b Hb. apply Hf. by right.
Qed.

Lemma marker_cells_length (i : Z) : (length (marker_cells i) ≤ 250)%nat.
Proof.
  unfold marker_cells.
  etrans; [apply (length_bind_le _ _ 25)|by vm_compute].
  intros ant. destruct (ant_x i ant) as [ax|]; [|simpl; lia].
  destruct (ant_y i ant) as [ay|]; [|simpl; lia].
  etrans; [apply (length_bind_le _ _ 5)|by vm_compute].
  intros dy.
  etrans; [apply (length_bind_le _ _ 1)|by vm_compute].
  intros dx. case_decide; simpl; lia.
Qed.

Lemma covered_marker_cells (i y x : Z) :
  covered i y x = true ↔ (y, x) ∈ marker_cells i.
Proof.
  rewrite covered_spec. unfold marker_cells. rewrite list_elem_of_bind.
  split.
  - intros (ant & ax & ay & Hant & Hax & Hay
            & (dy & dx & Hdy & Hdx & Hin & -> & ->)%stamp_spec).
    exists ant. split; [|by apply elem_of_py_range].
    rewrite Hax, Hay. apply list_elem_of_bind.
    exists dy. split; [|by apply elem_of_py_range].
    apply list_elem_of_bind.
    exists dx. split; [|by apply elem_of_py_range].
    rewrite decide_True by done. by apply list_elem_of_singleton.
  - intros (ant & Hcell & Hant%elem_of_py_range).
    destruct (ant_x i ant) as [ax|] eqn:Hax; [|inversion Hcell].
    destruct (ant_y i ant) as [ay|] eqn:Hay; [|inversion Hcell].
    apply list_elem_of_bind in Hcell as (dy & Hcell & Hdy%elem_of_py_range).
    apply list_elem_of_bind in Hcell as (dx & Hcell & Hdx%elem_of_py_range).
    destruct (decide ((0 ≤ ax + dx < width) ∧ (0 ≤ ay + dy < height)))
      as [Hin|Hout]; [|inversion Hcell].
    apply list_elem_of_singleton in Hcell as [= -> ->].
    exists ant, ax, ay. split; [exact Hant|].
    split; [exact Hax|]. split; [exact Hay|].
    apply stamp_spec. exists dy, dx.
    split; [exact Hdy|]. split; [exact Hdx|]. split; [exact Hin|].
    split; reflexivity.
Qed.

(** ** The formulas of the specification *)

Lemma pair_in_other_frame (i k : Z) (l : list (Z * Z)) :
  Forall (λ q, q.1 ≠ i) l → pair_in (i, k) l = false.
Proof.
  induction 1 as [|q l Hq _ IH]; [done|]. simpl. rewrite IH.
  apply Z.eqb_neq in Hq. simpl in Hq. rewrite Z.eqb_sym in Hq.
  by rewrite Hq.
Qed.

Lemma pair_in_other_column (i k : Z) (l : list (Z * Z)) :
  Forall (λ q, q.2 ≠ k) l → pair_in (i, k) l = false.
Proof.
  induction 1 as [|q l Hq _ IH]; [done|]. simpl. rewrite IH.
  apply Z.eqb_neq in Hq. simpl in Hq. rewrite Z.eqb_sym in Hq.
  rewrite Hq. by rewrite andb_false_r.
Qed.

Lemma Qfloor_fraction (q : Q) (n : Z) (d : positive) :
  (q == n # d)%Q → Qfloor q = n / Zpos d.
Proof. intros H. by rewrite (Qfloor_comp _ _ H). Qed.

Lemma spec_red_first (x : Z) : spec_red 0 x = 255 * x / 405.
Proof.
  unfold spec_red. apply Qfloor_fraction.
  unfold Qeq. simpl. lia.
Qed.

Lemma spec_green_first (y : Z) : spec_green 0 y = 0.
Proof.
  unfold spec_green.
  rewrite (Qfloor_fraction _ 0 1); [done|]. unfold Qeq. simpl. lia.
Qed.

Lemma spec_red_last (x : Z) : spec_red 29 x = 0.
Proof.
  unfold spec_red.
  rewrite (Qfloor_fraction _ 0 1); [done|]. unfold Qeq. simpl. lia.
Qed.

Lemma spec_red_left (i : Z) : spec_red i 0 = 0.
Proof.
  unfold spec_red.
  rewrite (Qfloor_fraction _ 0 1); [done|]. unfold Qeq. simpl. lia.
Qed.

Lemma spec_green_top (i : Z) : spec_green i 0 = 0.
Proof.
  unfold spec_green.
  rewrite (Qfloor_fraction _ 0 1); [done|]. unfold Qeq. simpl. lia.
Qed.

Lemma spec_blue_fraction (i : Z) : spec_blue i = 255 * i / 29.
Proof.
  unfold spec_blue. apply Qfloor_fraction. unfold Qeq. simpl. lia.
Qed.

Lemma spec_blue_strict (i j : Z) : i < j → spec_blue i < spec_blue j.
Proof.
  intros Hij. rewrite !spec_blue_fraction.
  pose proof (Z.div_mod (255 * i) 29 ltac:(lia)).
  pose proof (Z.div_mod (255 * j) 29 ltac:(lia)).
  pose proof (Z.mod_pos_bound (255 * i) 29 ltac:(lia)).
  pose proof (Z.mod_pos_bound (255 * j) 29 ltac:(lia)).
  lia.
Qed.

(** The saved pixel at [(y, x)] of frame [i], with its channel values
    when no marker covers it. *)
Lemma uncovered_pixel (i x y : Z) :
  0 ≤ i < n_frames → 0 ≤ x < width → 0 ≤ y < height →
  covered i y x = false →
  ∃ fr r g b, create_frame i = Some fr
    ∧ px fr y x = Some [r; g; b; 255]
    ∧ red_value i x = Some r ∧ green_value i y = Some g
    ∧ blue_value i = Some b.
Proof.
  intros Hi Hx Hy Hc.
  destruct (create_frame_spec i Hi) as (fr & Hrun & _ & Hpx).
  destruct (gradient_px_Some i y x Hi Hy Hx)
    as (r & g & b & Hr & Hg & Hb & Hval & _).
  exists fr, r, g, b.
  split; [exact Hrun|]. split; [|by auto].
  rewrite (Hpx y x Hy Hx), Hc. exact Hval.
Qed.

Lemma spec_red_fraction (i x : Z) :
  spec_red i x = 255 * x * (29 - i) / 11745.
Proof.
  unfold spec_red. apply Qfloor_fraction. unfold Qeq. simpl. lia.
Qed.

Lemma spec_green_fraction (i y : Z) :
  spec_green i y = 255 * y * i / 20880.
Proof.
  unfold spec_green. apply Qfloor_fraction. unfold Qeq. simpl. lia.
Qed.

Lemma spec_red_mono (i j x x' : Z) :
  0 ≤ i ≤ j → j ≤ 29 → 0 ≤ x ≤ x' → spec_red j x ≤ spec_red i x'.
Proof.
  intros Hi Hj Hx. rewrite !spec_red_fraction.
  apply Z.div_le_mono; [lia|]. nia.
Qed.

Lemma spec_green_mono (i j y y' : Z) :
  0 ≤ i ≤ j → 0 ≤ y ≤ y' → spec_green i y ≤ spec_green j y'.
Proof.
  intros Hi Hy. rewrite !spec_green_fraction.
  apply Z.div_le_mono; [lia|]. nia.
Qed.

Lemma pair_in_elem_of (p : Z * Z) (l : list (Z * Z)) :
  pair_in p l = true → p ∈ l.
Proof.
  destruct p as [a b]. induction l as [|[c d] l IH]; [done|].
  simpl. intros [[->%Z.eqb_eq ->%Z.eqb_eq]%andb_prop|H]%orb_prop.
  - left.
  - right. by apply IH.
Qed.

(** At a pair where the stored red is one less than the exact floor,
    the exact floor of the column before, and of the frame after, is
    at least one less as well. *)
Lemma red_rounded_down_step (i x : Z) :
  pair_in (i, x) red_rounded_down = true →
  spec_red i (x - 1) ≤ spec_red i x - 1
  ∧ spec_red (i + 1) x ≤ spec_red i x - 1.
Proof.
  intros H%pair_in_elem_of. unfold red_rounded_down in H.
  rewrite !spec_red_fraction. each_pair H.
Qed.

Lemma green_rounded_down_step (i y : Z) :
  pair_in (i, y) green_rounded_down = true →
  spec_green i (y - 1) ≤ spec_green i y - 1
  ∧ spec_green (i - 1) y ≤ spec_green i y - 1.
Proof.
  intros H%pair_in_elem_of. unfold green_rounded_down in H.
  rewrite !spec_green_fraction. each_pair H.
Qed.

Lemma off_by_range (b : bool) : 0 ≤ off_by b ≤ 1.
Proof. destruct b; simpl; lia. Qed.

Lemma red_value_mono (i j x x' r r' : Z) :
  0 ≤ i ≤ j → j < n_frames → 0 ≤ x ≤ x' → x' < width →
  red_value j x = Some r → red_value i x' = Some r' → r ≤ r'.
Proof.
  intros Hi Hj Hx Hx' Hr Hr'. unfold n_frames, width in *.
  destruct (red_facts j x ltac:(in_range) ltac:(in_range)) as (v & Hv & _ & Hvs).
  destruct (red_facts i x' ltac:(in_range) ltac:(in_range)) as (v' & Hv' & _ & Hvs').
  assert (v = r) as -> by congruence.
  assert (v' = r') as -> by congruence.
  clear Hr Hr' Hv Hv'.
  pose proof (off_by_range (pair_in (j, x) red_rounded_down)).
  destruct (pair_in (i, x') red_rounded_down) eqn:Hhit; last first.
  { pose proof (spec_red_mono i j x x' Hi ltac:(lia) Hx).
    unfold off_by in Hvs'. lia. }
  destruct (red_rounded_down_step _ _ Hhit) as [Hcol Hrow].
  unfold off_by in Hvs'.
  destruct (decide (x = x')) as [->|Hne].
  - destruct (decide (i = j)) as [->|Hij]; [rewrite Hhit in Hvs; unfold off_by in Hvs; lia|].
    pose proof (spec_red_mono (i + 1) j x' x' ltac:(lia) ltac:(lia) ltac:(lia)).
    lia.
  - pose proof (spec_red_mono i j x (x' - 1) Hi ltac:(lia) ltac:(lia)).
    lia.
Qed.

Lemma green_value_mono (i j y y' g g' : Z) :
  0 ≤ i ≤ j → j < n_frames → 0 ≤ y ≤ y' → y' < height →
  green_value i y = Some g → green_value j y' = Some g' → g ≤ g'.
Proof.
  intros Hi Hj Hy Hy' Hg Hg'. unfold n_frames, height in *.
  destruct (green_facts i y ltac:(in_range) ltac:(in_range)) as (v & Hv & _ & Hvs).
  destruct (green_facts j y' ltac:(in_range) ltac:(in_range)) as (v' & Hv' & _ & Hvs').
  assert (v = g) as -> by congruence.
  assert (v' = g') as -> by congruence.
  clear Hg Hg' Hv Hv'.
  pose proof (off_by_range (pair_in (i, y) green_rounded_down)).
  destruct (pair_in (j, y') green_rounded_down) eqn:Hhit; last first.
  { pose proof (spec_green_mono i j y y' Hi Hy).
    unfold off_by in Hvs'. lia. }
  destruct (green_rounded_down_step _ _ Hhit) as [Hrow Hfr].
  unfold off_by in Hvs'.
  destruct (decide (y = y')) as [->|Hne].
  - destruct (decide (i = j)) as [->|Hij]; [rewrite Hhit in Hvs; unfold off_by in Hvs; lia|].
    pose proof (spec_green_mono i (j - 1) y' y' ltac:(lia) ltac:(lia)).
    lia.
  - pose proof (spec_green_mono i j y (y' - 1) Hi ltac:(lia)).
    lia.
Qed.

(** ** The run *)

Lemma frame_names_expected :
  frame_name <$> py_range 0 n_frames = expected_names.
Proof. vm_compute. reflexivity. Qed.

Lemma frame_paths_expected :
  frame_paths = (λ n, frames_dir +:+ "/" +:+ n) <$> expected_names.
Proof. vm_compute. reflexivity. Qed.

Lemma frame_paths_NoDup : NoDup frame_paths.
Proof. apply (bool_decide_unpack _). vm_compute. exact I. Qed.

Lemma frame_paths_length : length frame_paths = 30%nat.
Proof. reflexivity. Qed.

Lemma NoDup_fmap_inj_on {A B : Type} (f : A → B) (l : list A) (x y : A) :
  NoDup (f <$> l) → x ∈ l → y ∈ l → f x = f y → x = y.
Proof.
  induction l as [|a l IH]; intros Hnd Hx Hy Hxy; [inversion Hx|].
  rewrite fmap_cons in Hnd. apply NoDup_cons in Hnd as [Ha Hnd].
  apply elem_of_cons in Hx as [->|Hx]; apply elem_of_cons in Hy as [->|Hy].
  - reflexivity.
  - exfalso. apply Ha. rewrite Hxy. by apply list_elem_of_fmap_2.
  - exfalso. apply Ha. rewrite <- Hxy. by apply list_elem_of_fmap_2.
  - by apply IH.
Qed.

Lemma frame_path_inj (i j : Z) :
  0 ≤ i < n_frames → 0 ≤ j < n_frames → frame_path i = frame_path j → i = j.
Proof.
  intros Hi Hj. apply (NoDup_fmap_inj_on frame_path (py_range 0 n_frames)).
  - exact frame_paths_NoDup.
  - by apply elem_of_py_range.
  - by apply elem_of_py_range.
Qed.

Lemma frame_step_Some (i : Z) (w : world) :
  0 ≤ i < n_frames →
  ∃ fr, create_frame i = Some fr ∧ frame_shape fr
        ∧ frame_step i w
          = Some (print (created_line i) (save (frame_path i) fr w)).
Proof.
  intros Hi. destruct (create_frame_spec i Hi) as (fr & Hrun & Hfr & _).
  exists fr. split; [exact Hrun|]. split; [exact Hfr|].
  unfold frame_step. rewrite Hrun. reflexivity.
Qed.

(** The frame loop over any list of frame indices. *)
Lemma frames_loop (l : list Z) (w : world) :
  (∀ i, i ∈ l → 0 ≤ i < n_frames) →
  ∃ w', for_each l frame_step w = Some w'
    ∧ dirs w' = dirs w
    ∧ stdout w' = stdout w ++ (created_line <$> l)
    ∧ dom (files w') = dom (files w) ∪ list_to_set (frame_path <$> l)
    ∧ (∀ p, p ∉ frame_path <$> l → files w' !! p = files w !! p)
    ∧ (∀ i, i ∈ l → files w' !! frame_path i = create_frame i).
Proof.
  revert w. induction l as [|k l IH]; intros w Hl.
  - exists w. split; [reflexivity|]. split; [reflexivity|].
    split; [by rewrite fmap_nil, app_nil_r|].
    split; [by rewrite fmap_nil, list_to_set_nil, (right_id_L ∅ (∪))|].
    split; [reflexivity|]. intros i Hi. inversion Hi.
  - assert (0 ≤ k < n_frames) as Hk by (apply Hl; left).
    destruct (frame_step_Some k w Hk) as (fr & Hfr & _ & Hstep).
    destruct (IH (print (created_line k) (save (frame_path k) fr w)))
      as (w' & Hrun & Hdirs & Hout & Hdom & Hother & Hsaved).
    { intros i Hi. apply Hl. by right. }
    assert (∀ p, p ∉ frame_path <$> l →
              files w' !! p = <[frame_path k := fr]> (files w) !! p)
      as Hother' by exact Hother.
    exists w'. split; [|split; [|split; [|split; [|split]]]].
    + cbn [for_each]. rewrite Hstep. exact Hrun.
    + exact Hdirs.
    + rewrite Hout, fmap_cons. cbn [print save stdout].
      by rewrite <- app_assoc.
    + rewrite Hdom, fmap_cons, list_to_set_cons. cbn [print save files].
      rewrite dom_insert_L.
      rewrite (comm_L (∪) {[frame_path k]} (dom (files w))).
      by rewrite <- (assoc_L (∪)).
    + intros p Hp. rewrite fmap_cons in Hp. apply not_elem_of_cons in Hp as [Hne Hp].
      rewrite (Hother' p Hp). by apply lookup_insert_ne.
    + intros i Hi. destruct (decide (i ∈ l)) as [Hin|Hnin].
      * by apply Hsaved.
      * apply elem_of_cons in Hi as [->|Hi]; [|done].
        rewrite Hother'.
        -- rewrite Hfr. apply lookup_insert_eq.
        -- intros (j & Hpath & Hj)%list_elem_of_fmap.
           apply Hnin.
           assert (k = j) as ->; [|done].
           apply frame_path_inj; [done| |done]. apply Hl. by right.
Qed.

(** One run, from any state of the world. *)
Lemma create_test_frames_spec (w : world) :
  ∃ w', create_test_frames w = Some (frames_dir, w')
    ∧ dirs w' = {[ "simulation_videos"; frames_dir ]} ∪ dirs w
    ∧ stdout w' = stdout w ++ (created_line <$> py_range 0 n_frames)
                           ++ [final_line]
    ∧ dom (files w') = dom (files w) ∪ list_to_set frame_paths
    ∧ (∀ p, p ∉ frame_paths → files w' !! p = files w !! p)
    ∧ (∀ i, 0 ≤ i < n_frames → files w' !! frame_path i = create_frame i).
Proof.
  destruct (frames_loop (py_range 0 n_frames) (makedirs w))
    as (w1 & Hrun & Hdirs & Hout & Hdom & Hother & Hsaved).
  { intros i Hi. by apply elem_of_py_range. }
  exists (print final_line w1).
  split; [|split; [|split; [|split; [|split]]]].
  - unfold create_test_frames. rewrite Hrun. reflexivity.
  - exact Hdirs.
  - cbn [print stdout]. rewrite Hout. cbn [makedirs stdout].
    by rewrite <- app_assoc.
  - exact Hdom.
  - exact Hother.
  - intros i Hi. apply Hsaved. by apply elem_of_py_range.
Qed.

(** * The frames the script writes *)

(** C1 (as amended): for every frame [i] in [0,30) and every in-bounds
    pixel no marker overwrites, the saved channels are alpha 255 and the
    truncated binary64 values of the three products.  Blue is the exact
    floor of [255 * i / 29]; red and green are the exact floors of the
    formulas of the specification except at the listed pairs, where
    rounding leaves the product just under an integer and the stored
    value is one less. *)
Theorem gradient_channels (i x y : Z) :
  0 ≤ i < n_frames → 0 ≤ x < width → 0 ≤ y < height →
  covered i y x = false →
  ∃ fr r g b, create_frame i = Some fr
    ∧ px fr y x = Some [r; g; b; 255]
    ∧ red_value i x = Some r ∧ green_value i y = Some g
    ∧ blue_value i = Some b
    ∧ r = spec_red i x - off_by (pair_in (i, x) red_rounded_down)
    ∧ g = spec_green i y - off_by (pair_in (i, y) green_rounded_down)
    ∧ b = spec_blue i.
Proof.
  intros Hi Hx Hy Hc.
  destruct (uncovered_pixel i x y Hi Hx Hy Hc)
    as (fr & r & g & b & Hrun & Hpx & Hr & Hg & Hb).
  destruct (red_facts i x Hi Hx) as (r' & Hr' & _ & Hrs).
  destruct (green_facts i y Hi Hy) as (g' & Hg' & _ & Hgs).
  destruct (blue_facts i Hi) as (b' & Hb' & _ & Hbs).
  assert (r' = r) as -> by congruence.
  assert (g' = g) as -> by congruence.
  assert (b' = b) as -> by congruence.
  exists fr, r, g, b. repeat split; done.
Qed.

Lemma gradient_channels_witness :
  ∃ fr r g b, create_frame 14 = Some fr
    ∧ px fr 3 261 = Some [r; g; b; 255]
    ∧ red_value 14 261 = Some r ∧ green_value 14 3 = Some g
    ∧ blue_value 14 = Some b
    ∧ r = spec_red 14 261 - off_by (pair_in (14, 261) red_rounded_down)
    ∧ g = spec_green 14 3 - off_by (pair_in (14, 3) green_rounded_down)
    ∧ b = spec_blue 14.
Proof.
  apply (gradient_channels 14 261 3).
  - in_range.
  - in_range.
  - in_range.
  - vm_compute. reflexivity.
Defined.

(** C1 (as stated) fails: in frame 2 the pixel at column 145 of row 0 is
    not covered by a marker, the exact formula gives red 85, and the
    script stores 84. *)
Lemma exact_red_fails_in_frame_2 :
  ∃ fr, create_frame 2 = Some fr ∧ covered 2 0 145 = false
        ∧ px fr 0 145 = Some [84; 0; 17; 255]
        ∧ spec_red 2 145 = 85.
Proof.
  assert (covered 2 0 145 = false) as Hc by (vm_compute; reflexivity).
  assert (0 ≤ 2 < n_frames) as Hi by in_range.
  assert (0 ≤ 145 < width) as Hx by in_range.
  assert (0 ≤ 0 < height) as Hy by in_range.
  destruct (uncovered_pixel 2 145 0 Hi Hx Hy Hc)
    as (fr & r & g & b & Hrun & Hpx & Hr & Hg & Hb).
  assert (red_value 2 145 = Some 84) as Hr' by (vm_compute; reflexivity).
  assert (green_value 2 0 = Some 0) as Hg' by (vm_compute; reflexivity).
  assert (blue_value 2 = Some 17) as Hb' by (vm_compute; reflexivity).
  assert (r = 84) as -> by congruence.
  assert (g = 0) as -> by congruence.
  assert (b = 17) as -> by congruence.
  exists fr. split; [exact Hrun|]. split; [exact Hc|]. split; [exact Hpx|].
  vm_compute. reflexivity.
Qed.

(** C2: for every frame [i] in [0,30) and marker [ant] in [0,10) the
    marker position is the one the floor formulas give, and every
    in-bounds pixel of its 5x5 square is (255,255,0,255) in the saved
    frame. *)
Theorem marker_square_yellow (i ant dx dy : Z) :
  0 ≤ i < n_frames → 0 ≤ ant < n_ants → -2 ≤ dx ≤ 2 → -2 ≤ dy ≤ 2 →
  ∃ fr, create_frame i = Some fr
    ∧ ant_x i ant = Some (spec_ant_x i ant)
    ∧ ant_y i ant = Some (spec_ant_y i ant)
    ∧ ((0 ≤ spec_ant_x i ant + dx < width)
       ∧ (0 ≤ spec_ant_y i ant + dy < height) →
       px fr (spec_ant_y i ant + dy) (spec_ant_x i ant + dx)
       = Some [255; 255; 0; 255]).
Proof.
  intros Hi Hant Hdx Hdy.
  destruct (create_frame_spec i Hi) as (fr & Hrun & _ & Hpx).
  destruct (marker_in_bounds i ant dx dy Hi Hant Hdx Hdy)
    as (ax & ay & Hax & Hay & -> & -> & _).
  exists fr. split; [exact Hrun|]. split; [exact Hax|]. split; [exact Hay|].
  intros [Hx Hy]. rewrite (Hpx _ _ Hy Hx).
  by rewrite (marker_covered i ant dx dy _ _ Hi Hant Hdx Hdy Hax Hay Hx Hy).
Qed.

Lemma marker_square_yellow_witness :
  ∃ fr, create_frame 29 = Some fr
    ∧ ant_x 29 0 = Some (spec_ant_x 29 0)
    ∧ ant_y 29 0 = Some (spec_ant_y 29 0)
    ∧ ((0 ≤ spec_ant_x 29 0 + 2 < width)
       ∧ (0 ≤ spec_ant_y 29 0 + -2 < height) →
       px fr (spec_ant_y 29 0 + -2) (spec_ant_x 29 0 + 2)
       = Some [255; 255; 0; 255]).
Proof.
  apply (marker_square_yellow 29 0 2 (-2)).
  - in_range.
  - in_range.
  - lia.
  - lia.
Defined.

(** C3: one run, from any state of the world, writes the 30 files
    [frame_0000.png] .. [frame_0029.png] of the frames directory and no
    other file; the 30 paths are pairwise different, and the file of
    frame [i] holds the buffer of frame [i], which has 720 rows of 405
    pixels of 4 channels. *)
Theorem thirty_frames_written (w : world) :
  ∃ w', create_test_frames w = Some (frames_dir, w')
    ∧ frame_name <$> py_range 0 n_frames = expected_names
    ∧ frame_paths = (λ n, frames_dir +:+ "/" +:+ n) <$> expected_names
    ∧ NoDup frame_paths ∧ length frame_paths = 30%nat
    ∧ dom (files w') = dom (files w) ∪ list_to_set frame_paths
    ∧ (∀ p, p ∉ frame_paths → files w' !! p = files w !! p)
    ∧ (∀ i, 0 ≤ i < n_frames →
         ∃ fr, files w' !! frame_path i = Some fr
               ∧ create_frame i = Some fr
               ∧ shape (Z.to_nat 720) (Z.to_nat 405) 4 fr).
Proof.
  destruct (create_test_frames_spec w)
    as (w' & Hrun & _ & _ & Hdom & Hother & Hsaved).
  exists w'. split; [exact Hrun|].
  split; [exact frame_names_expected|].
  split; [exact frame_paths_expected|].
  split; [exact frame_paths_NoDup|].
  split; [exact frame_paths_length|].
  split; [exact Hdom|]. split; [exact Hother|].
  intros i Hi. destruct (create_frame_spec i Hi) as (fr & Hfr & Hshape & _).
  exists fr. split; [|split; [exact Hfr|exact Hshape]].
  rewrite (Hsaved i Hi). exact Hfr.
Qed.

(** C4: the buffer saved for frame [i] is [create_frame i], a function
    of [i] alone: two runs, from any two states of the world, leave the
    same contents in the file of every frame. *)
Theorem frames_deterministic (w1 w2 : world) (i : Z) :
  0 ≤ i < n_frames →
  ∃ w1' w2' fr,
    create_test_frames w1 = Some (frames_dir, w1')
    ∧ create_test_frames w2 = Some (frames_dir, w2')
    ∧ create_frame i = Some fr
    ∧ files w1' !! frame_path i = Some fr
    ∧ files w2' !! frame_path i = Some fr.
Proof.
  intros Hi.
  destruct (create_test_frames_spec w1) as (w1' & Hrun1 & _ & _ & _ & _ & H1).
  destruct (create_test_frames_spec w2) as (w2' & Hrun2 & _ & _ & _ & _ & H2).
  destruct (create_frame_spec i Hi) as (fr & Hfr & _).
  exists w1', w2', fr.
  split; [exact Hrun1|]. split; [exact Hrun2|]. split; [exact Hfr|].
  split; [rewrite (H1 i Hi)|rewrite (H2 i Hi)]; exact Hfr.
Qed.

Lemma frames_deterministic_witness :
  ∃ w1' w2' fr,
    create_test_frames (World ∅ ∅ []) = Some (frames_dir, w1')
    ∧ create_test_frames (World {[ "tmp" ]} ∅ ["hello"])
      = Some (frames_dir, w2')
    ∧ create_frame 12 = Some fr
    ∧ files w1' !! frame_path 12 = Some fr
    ∧ files w2' !! frame_path 12 = Some fr.
Proof.
  apply (frames_deterministic (World ∅ ∅ []) (World {[ "tmp" ]} ∅ ["hello"]) 12).
  in_range.
Defined.

(** C5: every pixel of every frame is fully opaque, marker pixels
    included. *)
Theorem alpha_is_opaque (i x y : Z) :
  0 ≤ i < n_frames → 0 ≤ x < width → 0 ≤ y < height →
  ∃ fr p, create_frame i = Some fr ∧ px fr y x = Some p
          ∧ p !! 3%nat = Some 255.
Proof.
  intros Hi Hx Hy.
  destruct (create_frame_spec i Hi) as (fr & Hrun & _ & Hpx).
  destruct (gradient_px_Some i y x Hi Hy Hx)
    as (r & g & b & _ & _ & _ & Hval & _).
  specialize (Hpx y x Hy Hx).
  destruct (covered i y x).
  - exists fr, yellow. split; [exact Hrun|]. split; [exact Hpx|]. done.
  - exists fr, [r; g; b; alpha_value]. split; [exact Hrun|].
    split; [by rewrite Hpx|]. done.
Qed.

Lemma alpha_is_opaque_witness :
  ∃ fr p, create_frame 7 = Some fr ∧ px fr 719 404 = Some p
          ∧ p !! 3%nat = Some 255.
Proof.
  apply (alpha_is_opaque 7 404 719).
  - in_range.
  - in_range.
  - in_range.
Defined.

(** C6 (as amended): in frame 29 the time factor is exactly 1; a pixel
    no marker covers has red 0 and blue 255, and a marker pixel is
    (255,255,0,255), so its blue is 0. *)
Theorem last_frame_channels (x y : Z) :
  0 ≤ x < width → 0 ≤ y < height →
  ∃ fr g, create_frame 29 = Some fr
    ∧ time_factor 29 = of_int 1
    ∧ green_value 29 y = Some g
    ∧ px fr y x = if covered 29 y x then Some [255; 255; 0; 255]
                  else Some [0; g; 255; 255].
Proof.
  intros Hx Hy.
  assert (0 ≤ 29 < n_frames) as Hi by in_range.
  destruct (create_frame_spec 29 Hi) as (fr & Hrun & _ & Hpx).
  destruct (gradient_px_Some 29 y x Hi Hy Hx)
    as (r & g & b & Hr & Hg & Hb & Hval & _).
  destruct (red_facts 29 x Hi Hx) as (r' & Hr' & _ & Hrs).
  assert (blue_value 29 = Some 255) as Hb' by (vm_compute; reflexivity).
  rewrite spec_red_last, (pair_in_other_frame 29 x) in Hrs; last first.
  { unfold red_rounded_down. repeat constructor; simpl; lia. }
  assert (r = r') as Hrr by congruence.
  assert (r = 0) as -> by (unfold off_by in Hrs; lia).
  assert (b = 255) as -> by congruence.
  exists fr, g. split; [exact Hrun|].
  split; [vm_compute; reflexivity|]. split; [exact Hg|].
  rewrite (Hpx y x Hy Hx). destruct (covered 29 y x); [done|exact Hval].
Qed.

Lemma last_frame_channels_witness :
  ∃ fr g, create_frame 29 = Some fr
    ∧ time_factor 29 = of_int 1
    ∧ green_value 29 606 = Some g
    ∧ px fr 606 363 = if covered 29 606 363 then Some [255; 255; 0; 255]
                      else Some [0; g; 255; 255].
Proof.
  apply (last_frame_channels 363 606).
  - in_range.
  - in_range.
Defined.

(** C6 (as stated) fails: in frame 29 the pixel at column 363 of row 606
    is the centre of marker 0, and its blue channel is 0, not 255. *)
Lemma last_frame_marker_blue_is_zero :
  ∃ fr, create_frame 29 = Some fr ∧ covered 29 606 363 = true
        ∧ px fr 606 363 = Some [255; 255; 0; 255].
Proof.
  assert (0 ≤ 29 < n_frames) as Hi by in_range.
  assert (0 ≤ 363 < width) as Hx by in_range.
  assert (0 ≤ 606 < height) as Hy by in_range.
  assert (covered 29 606 363 = true) as Hc by (vm_compute; reflexivity).
  destruct (create_frame_spec 29 Hi) as (fr & Hrun & _ & Hpx).
  exists fr. split; [exact Hrun|]. split; [exact Hc|].
  rewrite (Hpx 606 363 Hy Hx), Hc. reflexivity.
Qed.

(** C7 (as amended): the bounds check is there, but it never fails: for
    every frame, marker and offset the cell lies inside the frame
    (columns 48..365, rows 48..608), the guarded write is the plain
    write, and every marker is drawn in full. *)
Theorem markers_never_clipped (i ant dx dy : Z) :
  0 ≤ i < n_frames → 0 ≤ ant < n_ants → -2 ≤ dx ≤ 2 → -2 ≤ dy ≤ 2 →
  ∃ ax ay, ant_x i ant = Some ax ∧ ant_y i ant = Some ay
    ∧ 48 ≤ ax + dx ≤ 365 ∧ 48 ≤ ay + dy ≤ 608
    ∧ ((0 ≤ ax + dx < width) ∧ (0 ≤ ay + dy < height))
    ∧ ∀ fr, draw_cell ax ay dy dx fr
            = set_pixel fr (ay + dy) (ax + dx) yellow.
Proof.
  intros Hi Hant Hdx Hdy.
  destruct (ant_facts i ant Hi Hant) as (ax & ay & Hax & Hay & _ & _ & ? & ?).
  exists ax, ay.
  assert ((0 ≤ ax + dx < width) ∧ (0 ≤ ay + dy < height)) as Hin
    by (unfold width, height; lia).
  split; [exact Hax|]. split; [exact Hay|].
  split; [lia|]. split; [lia|]. split; [exact Hin|].
  intros fr. unfold draw_cell. by rewrite decide_True.
Qed.

Lemma markers_never_clipped_witness :
  ∃ ax ay, ant_x 29 0 = Some ax ∧ ant_y 29 0 = Some ay
    ∧ 48 ≤ ax + 2 ≤ 365 ∧ 48 ≤ ay + 2 ≤ 608
    ∧ ((0 ≤ ax + 2 < width) ∧ (0 ≤ ay + 2 < height))
    ∧ ∀ fr, draw_cell ax ay 2 2 fr
            = set_pixel fr (ay + 2) (ax + 2) yellow.
Proof.
  apply (markers_never_clipped 29 0 2 2).
  - in_range.
  - in_range.
  - lia.
  - lia.
Defined.

(** C7 (as stated) fails: no frame, marker and offset give a cell
    outside the frame. *)
Lemma no_marker_is_clipped : some_marker_clipped ↔ False.
Proof.
  split; [|done].
  intros (i & ant & dx & dy & ax & ay & Hi & Hant & Hdx & Hdy
          & Hax & Hay & Hout).
  destruct (marker_in_bounds i ant dx dy Hi Hant Hdx Hdy)
    as (ax' & ay' & Hax' & Hay' & _ & _ & Hin).
  assert (ax' = ax) as -> by congruence.
  assert (ay' = ay) as -> by congruence.
  exact (Hout Hin).
Qed.

(** C8: in frame 0 a pixel no marker covers has green 0 and blue 0, and
    its red is the floor of [255 * x / 405], which does not decrease
    with the column. *)
Theorem first_frame_channels (x y : Z) :
  0 ≤ x < width → 0 ≤ y < height → covered 0 y x = false →
  ∃ fr, create_frame 0 = Some fr
    ∧ px fr y x = Some [255 * x / 405; 0; 0; 255]
    ∧ spec_red 0 x = 255 * x / 405
    ∧ ∀ x', x ≤ x' → 255 * x / 405 ≤ 255 * x' / 405.
Proof.
  intros Hx Hy Hc.
  assert (0 ≤ 0 < n_frames) as Hi by in_range.
  destruct (uncovered_pixel 0 x y Hi Hx Hy Hc)
    as (fr & r & g & b & Hrun & Hpx & Hr0 & Hg0 & Hb0).
  destruct (red_facts 0 x Hi Hx) as (r' & Hr' & _ & Hr).
  destruct (green_facts 0 y Hi Hy) as (g' & Hg' & _ & Hg).
  destruct (blue_facts 0 Hi) as (b' & Hb' & _ & Hb).
  assert (r' = r) as -> by congruence.
  assert (g' = g) as -> by congruence.
  assert (b' = b) as -> by congruence.
  rewrite spec_red_first, (pair_in_other_frame 0 x) in Hr; last first.
  { unfold red_rounded_down. repeat constructor; simpl; lia. }
  rewrite spec_green_first, (pair_in_other_frame 0 y) in Hg; last first.
  { unfold green_rounded_down. repeat constructor; simpl; lia. }
  rewrite spec_blue_fraction in Hb.
  unfold off_by in Hr, Hg.
  assert (r = 255 * x / 405) as -> by lia.
  assert (g = 0) as -> by lia.
  assert (b = 0) as -> by (rewrite Hb; reflexivity).
  exists fr. split; [exact Hrun|]. split; [exact Hpx|].
  split; [apply spec_red_first|].
  intros x' Hle. apply Z.div_le_mono; lia.
Qed.

Lemma first_frame_channels_witness :
  ∃ fr, create_frame 0 = Some fr
    ∧ px fr 10 400 = Some [255 * 400 / 405; 0; 0; 255]
    ∧ spec_red 0 400 = 255 * 400 / 405
    ∧ ∀ x', 400 ≤ x' → 255 * 400 / 405 ≤ 255 * x' / 405.
Proof.
  apply (first_frame_channels 400 10).
  - in_range.
  - in_range.
  - vm_compute. reflexivity.
Defined.

(** C9: for every frame and pixel the four values the gradient loop
    computes are in the range of a byte, red and green at most 254, so
    storing them into the [uint8] buffer changes none of them. *)
Theorem no_uint8_overflow (i x y : Z) :
  0 ≤ i < n_frames → 0 ≤ x < width → 0 ≤ y < height →
  ∃ r g b, red_value i x = Some r ∧ green_value i y = Some g
    ∧ blue_value i = Some b
    ∧ 0 ≤ r ≤ 254 ∧ 0 ≤ g ≤ 254 ∧ 0 ≤ b ≤ 255 ∧ 0 ≤ alpha_value ≤ 255
    ∧ wrap_uint8 r = r ∧ wrap_uint8 g = g ∧ wrap_uint8 b = b
    ∧ wrap_uint8 alpha_value = alpha_value.
Proof.
  intros Hi Hx Hy.
  destruct (gradient_px_Some i y x Hi Hy Hx)
    as (r & g & b & Hr & Hg & Hb & _ & Hr' & Hg' & Hb').
  exists r, g, b. unfold alpha_value.
  rewrite !wrap_uint8_small by lia. repeat split; try done; lia.
Qed.

Lemma no_uint8_overflow_witness :
  ∃ r g b, red_value 0 404 = Some r ∧ green_value 0 719 = Some g
    ∧ blue_value 0 = Some b
    ∧ 0 ≤ r ≤ 254 ∧ 0 ≤ g ≤ 254 ∧ 0 ≤ b ≤ 255 ∧ 0 ≤ alpha_value ≤ 255
    ∧ wrap_uint8 r = r ∧ wrap_uint8 g = g ∧ wrap_uint8 b = b
    ∧ wrap_uint8 alpha_value = alpha_value.
Proof.
  apply (no_uint8_overflow 0 404 719).
  - in_range.
  - in_range.
  - in_range.
Defined.

(** C10: two different frame indices give different buffers.  The
    corner pixel [(0, 0)] is covered by no marker, its blue channel is
    the floor of [255 * i / 29], and that is strictly increasing in
    [i]; the markers of a frame cover at most 250 cells. *)
Theorem distinct_frames_differ (i j : Z) :
  0 ≤ i < n_frames → 0 ≤ j < n_frames → i ≠ j →
  ∃ fi fj ri gi rj gj,
    create_frame i = Some fi ∧ create_frame j = Some fj
    ∧ covered i 0 0 = false ∧ covered j 0 0 = false
    ∧ px fi 0 0 = Some [ri; gi; 255 * i / 29; 255]
    ∧ px fj 0 0 = Some [rj; gj; 255 * j / 29; 255]
    ∧ 255 * i / 29 ≠ 255 * j / 29
    ∧ (i < j → 255 * i / 29 < 255 * j / 29)
    ∧ fi ≠ fj
    ∧ (length (marker_cells i) ≤ 250)%nat
    ∧ (∀ y x, covered i y x = true → (y, x) ∈ marker_cells i).
Proof.
  intros Hi Hj Hij.
  assert (∀ k, 0 ≤ k < n_frames → covered k 0 0 = false) as Hfree.
  { intros k Hk. destruct (covered k 0 0) eqn:Hc; [|done].
    apply covered_bounds in Hc; [lia|done]. }
  assert (0 ≤ 0 < width) as Hx by in_range.
  assert (0 ≤ 0 < height) as Hy by in_range.
  destruct (uncovered_pixel i 0 0 Hi Hx Hy (Hfree i Hi))
    as (fi & ri & gi & bi & Hruni & Hpxi & _ & _ & Hbi).
  destruct (uncovered_pixel j 0 0 Hj Hx Hy (Hfree j Hj))
    as (fj & rj & gj & bj & Hrunj & Hpxj & _ & _ & Hbj).
  destruct (blue_facts i Hi) as (bi' & Hbi' & _ & Hbis).
  destruct (blue_facts j Hj) as (bj' & Hbj' & _ & Hbjs).
  assert (bi = 255 * i / 29) as ->
    by (rewrite <- spec_blue_fraction; congruence).
  assert (bj = 255 * j / 29) as ->
    by (rewrite <- spec_blue_fraction; congruence).
  assert (255 * i / 29 ≠ 255 * j / 29) as Hne.
  { rewrite <- !spec_blue_fraction.
    destruct (Z.lt_total i j) as [Hlt|[Heq|Hgt]]; [|done|].
    - pose proof (spec_blue_strict i j Hlt). lia.
    - pose proof (spec_blue_strict j i Hgt). lia. }
  exists fi, fj, ri, gi, rj, gj.
  split; [exact Hruni|]. split; [exact Hrunj|].
  split; [exact (Hfree i Hi)|]. split; [exact (Hfree j Hj)|].
  split; [exact Hpxi|]. split; [exact Hpxj|]. split; [exact Hne|].
  split.
  { intros Hlt. rewrite <- !spec_blue_fraction.
    by apply spec_blue_strict. }
  split.
  { intros ->. rewrite Hpxi in Hpxj. congruence. }
  split; [apply marker_cells_length|].
  intros y x Hc. by apply covered_marker_cells.
Qed.

Lemma distinct_frames_differ_witness :
  ∃ fi fj ri gi rj gj,
    create_frame 3 = Some fi ∧ create_frame 4 = Some fj
    ∧ covered 3 0 0 = false ∧ covered 4 0 0 = false
    ∧ px fi 0 0 = Some [ri; gi; 255 * 3 / 29; 255]
    ∧ px fj 0 0 = Some [rj; gj; 255 * 4 / 29; 255]
    ∧ 255 * 3 / 29 ≠ 255 * 4 / 29
    ∧ (3 < 4 → 255 * 3 / 29 < 255 * 4 / 29)
    ∧ fi ≠ fj
    ∧ (length (marker_cells 3) ≤ 250)%nat
    ∧ (∀ y x, covered 3 y x = true → (y, x) ∈ marker_cells 3).
Proof.
  apply (distinct_frames_differ 3 4).
  - in_range.
  - in_range.
  - lia.
Defined.

(** * Further properties *)

(** ** Markers *)

(** Both coordinates of a marker depend on the frame and the marker
    through one phase only: marker [ant] is marker 0 shifted by
    [3 * ant] frames horizontally and by [2 * ant] frames vertically,
    and the motion repeats every 30 frames.  This holds for all
    integers, in and out of the ranges the loops use. *)
Theorem marker_phase (i ant : Z) :
  ant_x i ant = ant_x ((i + ant * 3) `mod` 30) 0
  ∧ ant_y i ant = ant_y ((i + ant * 2) `mod` 30) 0
  ∧ ant_x (i + 30) ant = ant_x i ant
  ∧ ant_y (i + 30) ant = ant_y i ant.
Proof.
  unfold ant_x, ant_y.
  rewrite !Z.mul_0_l, !Z.add_0_r, !Z.mod_mod by lia.
  replace (i + 30 + ant * 3) with (i + ant * 3 + 1 * 30) by lia.
  replace (i + 30 + ant * 2) with (i + ant * 2 + 1 * 30) by lia.
  rewrite !Z.mod_add by lia.
  split; [reflexivity|]. split; [reflexivity|]. split; reflexivity.
Qed.

(** Every marker of every frame is drawn in full: the guarded writes of
    a frame are exactly 250, and all of them land in rows 48..608 and
    columns 48..365. *)
Theorem marker_cells_complete (i : Z) :
  0 ≤ i < n_frames →
  length (marker_cells i) = 250%nat
  ∧ ∀ y x, (y, x) ∈ marker_cells i → 48 ≤ y ≤ 608 ∧ 48 ≤ x ≤ 365.
Proof.
  intros Hi. split.
  - unfold marker_cells.
    rewrite (length_bind_const _ _ 25); [reflexivity|].
    intros ant Hant%elem_of_py_range.
    destruct (ant_facts i ant Hi Hant)
      as (ax & ay & Hax & Hay & _ & _ & Hxr & Hyr).
    rewrite Hax, Hay.
    rewrite (length_bind_const _ _ 5); [reflexivity|].
    intros dy Hdy%elem_of_py_range.
    rewrite (length_bind_const _ _ 1); [reflexivity|].
    intros dx Hdx%elem_of_py_range.
    rewrite decide_True; [reflexivity|]. unfold width, height. lia.
  - intros y x Hc%covered_marker_cells. by apply (covered_bounds i).
Qed.

Lemma marker_cells_complete_witness :
  length (marker_cells 17) = 250%nat
  ∧ ∀ y x, (y, x) ∈ marker_cells 17 → 48 ≤ y ≤ 608 ∧ 48 ≤ x ≤ 365.
Proof. apply (marker_cells_complete 17). in_range. Defined.

(** The markers can be drawn in any order: the marker loop run over any
    rearrangement of [range(10)] leaves the same buffer. *)
Theorem marker_order_irrelevant (i : Z) (l : list Z) (fr : frame) :
  0 ≤ i < n_frames → l ≡ₚ py_range 0 n_ants → frame_shape fr →
  ∃ out, for_each l (draw_ant i) fr = Some out
         ∧ for_each (py_range 0 n_ants) (draw_ant i) fr = Some out.
Proof.
  intros Hi Hl Hfr.
  destruct (paints_agree _ _ _ (λ _ _, Some yellow) _ _ _ _ fr fr
              (ants_paint i l Hi
                 (λ ant Hant, proj1 (elem_of_py_range _ _ _)
                                (proj1 (elem_of_Permutation_proper _ _ _ Hl) Hant)))
              (ants_paint i (py_range 0 n_ants) Hi
                 (λ ant Hant, proj1 (elem_of_py_range _ _ _) Hant))
              Hfr Hfr)
    as (out & Hrun & Hrun' & _).
  - intros y x _ _. split; [|reflexivity].
    by apply existsb_Permutation.
  - exists out. split; [exact Hrun|exact Hrun'].
Qed.

Lemma marker_order_irrelevant_witness :
  ∃ out, for_each (reverse (py_range 0 n_ants)) (draw_ant 5)
           (np_zeros (Z.to_nat height) (Z.to_nat width) 4) = Some out
         ∧ for_each (py_range 0 n_ants) (draw_ant 5)
             (np_zeros (Z.to_nat height) (Z.to_nat width) 4) = Some out.
Proof.
  apply (marker_order_irrelevant 5).
  - in_range.
  - apply reverse_Permutation.
  - apply np_zeros_shape.
Defined.

(** In a saved frame the yellow pixels are exactly the marker pixels:
    the gradient never produces (255,255,0,255), its red being at most
    254. *)
Theorem yellow_iff_marker (i x y : Z) :
  0 ≤ i < n_frames → 0 ≤ x < width → 0 ≤ y < height →
  ∃ fr, create_frame i = Some fr
        ∧ (px fr y x = Some [255; 255; 0; 255] ↔ covered i y x = true).
Proof.
  intros Hi Hx Hy.
  destruct (create_frame_spec i Hi) as (fr & Hrun & _ & Hpx).
  destruct (gradient_px_Some i y x Hi Hy Hx)
    as (r & g & b & _ & _ & _ & Hval & Hr & _).
  exists fr. split; [exact Hrun|].
  rewrite (Hpx y x Hy Hx). destruct (covered i y x).
  - split; reflexivity.
  - rewrite Hval. split; [|discriminate].
    intros [= -> _]. lia.
Qed.

Lemma yellow_iff_marker_witness :
  ∃ fr, create_frame 8 = Some fr
        ∧ (px fr 300 200 = Some [255; 255; 0; 255]
           ↔ covered 8 300 200 = true).
Proof.
  apply (yellow_iff_marker 8 200 300).
  - in_range.
  - in_range.
  - in_range.
Defined.

(** Outside rows 48..608 and columns 48..365 a saved frame is pure
    gradient: no marker ever reaches the border band. *)
Theorem border_is_gradient (i x y : Z) :
  0 ≤ i < n_frames → 0 ≤ x < width → 0 ≤ y < height →
  y < 48 ∨ 608 < y ∨ x < 48 ∨ 365 < x →
  ∃ fr r g b, create_frame i = Some fr
    ∧ px fr y x = Some [r; g; b; 255]
    ∧ red_value i x = Some r ∧ green_value i y = Some g
    ∧ blue_value i = Some b.
Proof.
  intros Hi Hx Hy Hband. apply uncovered_pixel; [exact Hi|exact Hx|exact Hy|].
  destruct (covered i y x) eqn:Hc; [|reflexivity].
  apply (covered_bounds i) in Hc; [lia|exact Hi].
Qed.

Lemma border_is_gradient_witness :
  ∃ fr r g b, create_frame 21 = Some fr
    ∧ px fr 719 404 = Some [r; g; b; 255]
    ∧ red_value 21 404 = Some r ∧ green_value 21 719 = Some g
    ∧ blue_value 21 = Some b.
Proof.
  apply (border_is_gradient 21 404 719).
  - in_range.
  - in_range.
  - in_range.
  - lia.
Defined.

(** ** Gradient *)

(** The gradient pass overwrites every cell: from any two buffers of
    the frame's dimensions it leaves the same buffer, so the zeros of
    the allocation are never seen. *)
Theorem gradient_overwrites_buffer (i : Z) (fr fr' : frame) :
  0 ≤ i < n_frames → frame_shape fr → frame_shape fr' →
  ∃ out, shade (time_factor i) fr = Some out
         ∧ shade (time_factor i) fr' = Some out
         ∧ frame_shape out
         ∧ ∀ y x, 0 ≤ y < height → 0 ≤ x < width →
             px out y x = gradient_px i y x.
Proof.
  intros Hi Hfr Hfr'.
  destruct (paints_agree _ _ _ _ _ _ _ _ fr fr'
              (shade_paints i Hi) (shade_paints i Hi) Hfr Hfr')
    as (out & Hrun & Hrun' & Hout).
  - intros y x Hy Hx. split; [reflexivity|].
    unfold in_frame. rewrite bool_decide_eq_true_2; [discriminate|].
    unfold height, width in *. lia.
  - exists out. split; [exact Hrun|]. split; [exact Hrun'|].
    split; [exact Hout|].
    intros y x Hy Hx.
    destruct (shade_paints i Hi fr Hfr) as (out' & Hrun2 & _ & Hpx).
    assert (out' = out) as -> by congruence.
    rewrite Hpx. unfold in_frame. by rewrite bool_decide_eq_true_2.
Qed.

Lemma gradient_overwrites_buffer_witness :
  ∃ out, shade (time_factor 3) (np_zeros (Z.to_nat height) (Z.to_nat width) 4)
         = Some out
         ∧ shade (time_factor 3)
             (replicate (Z.to_nat height)
                (replicate (Z.to_nat width) [7; 7; 7; 7])) = Some out
         ∧ frame_shape out
         ∧ ∀ y x, 0 ≤ y < height → 0 ≤ x < width →
             px out y x = gradient_px 3 y x.
Proof.
  apply (gradient_overwrites_buffer 3).
  - in_range.
  - apply np_zeros_shape.
  - split; [apply length_replicate|].
    apply Forall_replicate. split; [apply length_replicate|].
    apply Forall_replicate. reflexivity.
Defined.

(** The left column has no red and the top row no green, in every
    frame. *)
Theorem left_column_top_row (i : Z) :
  0 ≤ i < n_frames → red_value i 0 = Some 0 ∧ green_value i 0 = Some 0.
Proof.
  intros Hi.
  destruct (red_facts i 0 Hi ltac:(in_range)) as (r & Hr & _ & Hrs).
  destruct (green_facts i 0 Hi ltac:(in_range)) as (g & Hg & _ & Hgs).
  rewrite spec_red_left, pair_in_other_column in Hrs; last first.
  { unfold red_rounded_down. repeat constructor; simpl; lia. }
  rewrite spec_green_top, pair_in_other_column in Hgs; last first.
  { unfold green_rounded_down. repeat constructor; simpl; lia. }
  unfold off_by in Hrs, Hgs.
  assert (r = 0) as -> by lia. assert (g = 0) as -> by lia.
  split; [exact Hr|exact Hg].
Qed.

Lemma left_column_top_row_witness :
  red_value 11 0 = Some 0 ∧ green_value 11 0 = Some 0.
Proof. apply (left_column_top_row 11). in_range. Defined.

(** Within a frame the gradient is monotone in spite of the rounding:
    the computed red never decreases from one column to the next, and
    the computed green never decreases from one row to the next. *)
Theorem gradient_monotone_in_space (i x x' y y' : Z) :
  0 ≤ i < n_frames → 0 ≤ x ≤ x' → x' < width → 0 ≤ y ≤ y' → y' < height →
  ∃ r r' g g',
    red_value i x = Some r ∧ red_value i x' = Some r'
    ∧ green_value i y = Some g ∧ green_value i y' = Some g'
    ∧ r ≤ r' ∧ g ≤ g'.
Proof.
  intros Hi Hx Hx' Hy Hy'. unfold n_frames, width, height in *.
  destruct (red_facts i x Hi ltac:(in_range)) as (r & Hr & _).
  destruct (red_facts i x' Hi ltac:(in_range)) as (r' & Hr' & _).
  destruct (green_facts i y Hi ltac:(in_range)) as (g & Hg & _).
  destruct (green_facts i y' Hi ltac:(in_range)) as (g' & Hg' & _).
  exists r, r', g, g'.
  split; [exact Hr|]. split; [exact Hr'|].
  split; [exact Hg|]. split; [exact Hg'|]. split.
  - apply (red_value_mono i i x x'); [lia|in_range|lia|in_range|exact Hr|exact Hr'].
  - apply (green_value_mono i i y y'); [lia|in_range|lia|in_range|exact Hg|exact Hg'].
Qed.

Lemma gradient_monotone_in_space_witness :
  ∃ r r' g g',
    red_value 2 144 = Some r ∧ red_value 2 145 = Some r'
    ∧ green_value 2 10 = Some g ∧ green_value 2 700 = Some g'
    ∧ r ≤ r' ∧ g ≤ g'.
Proof.
  apply (gradient_monotone_in_space 2 144 145 10 700).
  - in_range.
  - lia.
  - in_range.
  - lia.
  - in_range.
Defined.

(** From one frame to a later one, at a fixed pixel position, the
    computed red never increases and the computed green and blue never
    decrease. *)
Theorem gradient_monotone_in_time (i j x y : Z) :
  0 ≤ i ≤ j → j < n_frames → 0 ≤ x < width → 0 ≤ y < height →
  ∃ ri rj gi gj bi bj,
    red_value i x = Some ri ∧ red_value j x = Some rj
    ∧ green_value i y = Some gi ∧ green_value j y = Some gj
    ∧ blue_value i = Some bi ∧ blue_value j = Some bj
    ∧ rj ≤ ri ∧ gi ≤ gj ∧ bi ≤ bj.
Proof.
  intros Hi Hj Hx Hy. unfold n_frames, width, height in *.
  destruct (red_facts i x ltac:(in_range) Hx) as (ri & Hri & _).
  destruct (red_facts j x ltac:(in_range) Hx) as (rj & Hrj & _).
  destruct (green_facts i y ltac:(in_range) Hy) as (gi & Hgi & _).
  destruct (green_facts j y ltac:(in_range) Hy) as (gj & Hgj & _).
  destruct (blue_facts i ltac:(in_range)) as (bi & Hbi & _ & Hbis).
  destruct (blue_facts j ltac:(in_range)) as (bj & Hbj & _ & Hbjs).
  exists ri, rj, gi, gj, bi, bj.
  split; [exact Hri|]. split; [exact Hrj|].
  split; [exact Hgi|]. split; [exact Hgj|].
  split; [exact Hbi|]. split; [exact Hbj|]. split; [|split].
  - apply (red_value_mono i j x x); [lia|in_range|lia|in_range|exact Hrj|exact Hri].
  - apply (green_value_mono i j y y); [lia|in_range|lia|in_range|exact Hgi|exact Hgj].
  - rewrite Hbis, Hbjs, !spec_blue_fraction.
    apply Z.div_le_mono; lia.
Qed.

Lemma gradient_monotone_in_time_witness :
  ∃ ri rj gi gj bi bj,
    red_value 20 87 = Some ri ∧ red_value 21 87 = Some rj
    ∧ green_value 20 406 = Some gi ∧ green_value 21 406 = Some gj
    ∧ blue_value 20 = Some bi ∧ blue_value 21 = Some bj
    ∧ rj ≤ ri ∧ gi ≤ gj ∧ bi ≤ bj.
Proof.
  apply (gradient_monotone_in_time 20 21 87 406).
  - lia.
  - in_range.
  - in_range.
  - in_range.
Defined.

(** ** The run *)

(** What a run prints: one line per frame, in order, then the summary
    line; 31 lines in all. *)
Theorem console_output (w : world) :
  ∃ w', create_test_frames w = Some (frames_dir, w')
    ∧ stdout w' = stdout w ++ (created_line <$> py_range 0 n_frames)
                           ++ [final_line]
    ∧ created_line <$> py_range 0 n_frames
      = (λ n, "Created " +:+ n) <$> expected_names
    ∧ final_line
      = "✅ Created 30 test PNG frames in simulation_videos/test_png_frames"
    ∧ length (stdout w') = (length (stdout w) + 31)%nat.
Proof.
  destruct (create_test_frames_spec w) as (w' & Hrun & _ & Hout & _).
  exists w'. split; [exact Hrun|]. split; [exact Hout|].
  split; [vm_compute; reflexivity|]. split; [vm_compute; reflexivity|].
  rewrite Hout, !length_app, length_fmap. reflexivity.
Qed.


(** Running the generator again changes no file and no directory: the
    second run overwrites each frame file with the contents it already
    has, and only prints its 31 lines again. *)
Theorem second_run_changes_nothing (w : world) :
  ∃ w' w'', create_test_frames w = Some (frames_dir, w')
    ∧ create_test_frames w' = Some (frames_dir, w'')
    ∧ files w'' = files w' ∧ dirs w'' = dirs w'
    ∧ length (stdout w'') = (length (stdout w') + 31)%nat.
Proof.
  destruct (create_test_frames_spec w)
    as (w' & Hrun & Hdirs & _ & _ & _ & Hsaved).
  destruct (create_test_frames_spec w')
    as (w'' & Hrun' & Hdirs' & Hout' & _ & Hother' & Hsaved').
  exists w', w''. split; [exact Hrun|]. split; [exact Hrun'|].
  split; [|split].
  - apply map_eq. intros p.
    destruct (decide (p ∈ frame_paths)) as [Hp|Hp]; [|by apply Hother'].
    apply list_elem_of_fmap in Hp as (i & -> & Hi%elem_of_py_range).
    by rewrite (Hsaved i Hi), (Hsaved' i Hi).
  - rewrite Hdirs', Hdirs. by rewrite (assoc_L (∪)), (idemp_L (∪)).
  - rewrite Hout', !length_app, length_fmap. reflexivity.
Qed.
